(** * Notes frontend: the view-state controller of [routes/index.tsx]

    A shallow embedding of the client-side state logic of the notes
    application (the [refresh], [selectNote], [onCreate], [onSave] and
    [onDelete] handlers and the [filteredNotes] derivation), together with
    the properties its specification states about them.

    Modelling conventions.
    - A JavaScript string is its sequence of UTF-16 code units, [list N].
      Literals are written [js "..."].
    - [number] ids are integers, [Z].  Optional fields ([tags?], [updated_at?],
      [selectedId?], ...) are [option]s; JavaScript truthiness of a string
      ([s || d], [if (s)]) is non-emptiness.
    - The handlers are [async] functions over the reactive store.  They are
      written in a small state-and-exception monad [Task]; every [await] of a
      remote call asks the host for a reply and records the store as the
      display layer sees it while the call is pending.
    - [String.prototype.localeCompare] is host-defined collation: it is a
      variable of the development, constrained only where a property needs
      it to be a consistent comparator. *)

From Stdlib Require Import List ZArith NArith Bool Lia String Ascii.
From Stdlib Require Import Permutation Sorted.
Import ListNotations.

Local Open Scope Z_scope.

(** ** JavaScript strings *)

Definition jsstring : Type := list N.

(** Literal helper: the code units of an ASCII/Latin-1 literal. *)
Definition js (s : string) : jsstring :=
  map N_of_ascii (list_ascii_of_string s).

Definition str_eqb (a b : jsstring) : bool :=
  if list_eq_dec N.eq_dec a b then true else false.

(** Truthiness of a string value: only the empty string is falsy. *)
Definition truthy (s : jsstring) : bool :=
  match s with [] => false | _ :: _ => true end.

(** [a || b] on an optional string [a]: [undefined] and the empty string both
    fall through to [b]. *)
Definition or_else (a : option jsstring) (b : jsstring) : jsstring :=
  match a with
  | Some s => if truthy s then s else b
  | None => b
  end.

(** The code units [String.prototype.trim] strips: ECMAScript WhiteSpace
    (TAB, VT, FF, SP, NBSP, ZWNBSP and category Zs) and LineTerminator
    (LF, CR, LS, PS). *)
Definition isWhiteSpace (c : N) : bool :=
  ((c =? 9) || (c =? 10) || (c =? 11) || (c =? 12) || (c =? 13) || (c =? 32)
   || (c =? 160) || (c =? 5760)
   || ((8192 <=? c) && (c <=? 8202))
   || (c =? 8232) || (c =? 8233) || (c =? 8239) || (c =? 8287)
   || (c =? 12288) || (c =? 65279))%N.

Fixpoint trimStart (s : jsstring) : jsstring :=
  match s with
  | [] => []
  | c :: r => if isWhiteSpace c then trimStart r else s
  end.

Definition trimEnd (s : jsstring) : jsstring := rev (trimStart (rev s)).

Definition trim (s : jsstring) : jsstring := trimEnd (trimStart s).

Definition comma : N := 44.

(** [s.split(sep)] for a one-code-unit separator: a string with [k]
    occurrences of [sep] has [k + 1] pieces; the empty string has one. *)
Fixpoint split (sep : N) (s : jsstring) : list jsstring :=
  match s with
  | [] => [[]]
  | c :: r =>
      if (c =? sep)%N then [] :: split sep r
      else match split sep r with
           | p :: ps => (c :: p) :: ps
           | [] => [[c]]
           end
  end.

(** [arr.join(sep)] on an array of strings. *)
Fixpoint join (sep : jsstring) (l : list jsstring) : jsstring :=
  match l with
  | [] => []
  | [a] => a
  | a :: r => a ++ sep ++ join sep r
  end.

(** [arr.includes(t)] on an array of strings. *)
Definition includes (l : list jsstring) (t : jsstring) : bool :=
  existsb (str_eqb t) l.

(** [arr.sort(cmp)]: the sort is stable, and for a consistent comparator its
    result is determined; it is modelled by stable insertion.  [cmp a b <= 0]
    keeps [a] in front of [b]. *)
Section Sort.
Context {A : Type} (cmp : A -> A -> Z).

Fixpoint insert (x : A) (l : list A) : list A :=
  match l with
  | [] => [x]
  | y :: r => if cmp x y <=? 0 then x :: l else y :: insert x r
  end.

Fixpoint sort (l : list A) : list A :=
  match l with
  | [] => []
  | x :: r => insert x (sort r)
  end.
End Sort.

(** Comparison of strings by code unit, the collation of a host whose
    [localeCompare] orders strings lexicographically. *)
Fixpoint codeUnitCompare (a b : jsstring) : Z :=
  match a, b with
  | [], [] => 0
  | [], _ :: _ => -1
  | _ :: _, [] => 1
  | x :: a', y :: b' =>
      match (x ?= y)%N with
      | Lt => -1
      | Gt => 1
      | Eq => codeUnitCompare a' b'
      end
  end.

(** ** Data model *)

(** [type Note]. *)
Record Note : Type := mkNote {
  id : Z;
  title : jsstring;
  content : jsstring;
  tags : option (list jsstring);
  updated_at : option jsstring;
  created_at : option jsstring
}.

(** The [Partial<Note>] bodies the handlers send: title, content and tags. *)
Record NoteData : Type := mkData {
  d_title : jsstring;
  d_content : jsstring;
  d_tags : list jsstring
}.

(** [type UIState]. *)
Record UIState : Type := mkState {
  notes : list Note;
  loading : bool;
  error : option jsstring;
  selectedId : option Z;
  editTitle : jsstring;
  editContent : jsstring;
  editTags : jsstring;
  search : jsstring;
  activeTag : option jsstring
}.

Definition initialState : UIState :=
  {| notes := []; loading := true; error := None; selectedId := None;
     editTitle := []; editContent := []; editTags := [];
     search := []; activeTag := None |}.

(** The component's store and its two busy signals. *)
Record World : Type := mkWorld {
  state : UIState;
  saving : bool;
  deleting : bool
}.

Definition initialWorld : World :=
  {| state := initialState; saving := false; deleting := false |}.

(** Field assignments. *)
Definition set_notes (v : list Note) (s : UIState) : UIState :=
  mkState v (loading s) (error s) (selectedId s) (editTitle s)
          (editContent s) (editTags s) (search s) (activeTag s).
Definition set_loading (v : bool) (s : UIState) : UIState :=
  mkState (notes s) v (error s) (selectedId s) (editTitle s)
          (editContent s) (editTags s) (search s) (activeTag s).
Definition set_error (v : option jsstring) (s : UIState) : UIState :=
  mkState (notes s) (loading s) v (selectedId s) (editTitle s)
          (editContent s) (editTags s) (search s) (activeTag s).
Definition set_selectedId (v : option Z) (s : UIState) : UIState :=
  mkState (notes s) (loading s) (error s) v (editTitle s)
          (editContent s) (editTags s) (search s) (activeTag s).
Definition set_editTitle (v : jsstring) (s : UIState) : UIState :=
  mkState (notes s) (loading s) (error s) (selectedId s) v
          (editContent s) (editTags s) (search s) (activeTag s).
Definition set_editContent (v : jsstring) (s : UIState) : UIState :=
  mkState (notes s) (loading s) (error s) (selectedId s) (editTitle s)
          v (editTags s) (search s) (activeTag s).
Definition set_editTags (v : jsstring) (s : UIState) : UIState :=
  mkState (notes s) (loading s) (error s) (selectedId s) (editTitle s)
          (editContent s) v (search s) (activeTag s).
Definition set_search (v : jsstring) (s : UIState) : UIState :=
  mkState (notes s) (loading s) (error s) (selectedId s) (editTitle s)
          (editContent s) (editTags s) v (activeTag s).
Definition set_activeTag (v : option jsstring) (s : UIState) : UIState :=
  mkState (notes s) (loading s) (error s) (selectedId s) (editTitle s)
          (editContent s) (editTags s) (search s) v.

Definition on_state (f : UIState -> UIState) (w : World) : World :=
  mkWorld (f (state w)) (saving w) (deleting w).
Definition set_saving (v : bool) (w : World) : World :=
  mkWorld (state w) v (deleting w).
Definition set_deleting (v : bool) (w : World) : World :=
  mkWorld (state w) (saving w) v.

(** ** The host: the remote notes service and the confirmation dialog *)

(** A thrown value, as far as the handlers look at it: [e?.message]. *)
Record JsError : Type := mkError { message : option jsstring }.

(** A settled promise. *)
Inductive Settled (A : Type) : Type :=
| Fulfilled (a : A)
| Rejected (e : JsError).
Arguments Fulfilled {A} a.
Arguments Rejected {A} e.

(** What the component asks of its environment: the calls of the [api]
    object the handlers use, and [confirm]. *)
Inductive Request : Type :=
| ListNotes (q : option jsstring)
| CreateNote (d : NoteData)
| UpdateNote (i : Z) (d : NoteData)
| DeleteNote (i : Z)
| Confirm (msg : jsstring).

Definition Reply (r : Request) : Type :=
  match r with
  | ListNotes _ => Settled (list Note)
  | CreateNote _ => Settled Note
  | UpdateNote _ _ => Settled Note
  | DeleteNote _ => Settled unit
  | Confirm _ => bool
  end.

(** One interaction with the host: the request, and the store as it stands
    (and is rendered) while the request is pending. *)
Record Event : Type := mkEvent { asked : Request; shown : World }.

(** [e?.message ?? fallback]. *)
Definition message_or (e : JsError) (fallback : jsstring) : jsstring :=
  match message e with Some m => m | None => fallback end.

(** [s || d] on a string. *)
Definition str_or (s d : jsstring) : jsstring := if truthy s then s else d.

(** [n.tags || []] (an array, even an empty one, is truthy). *)
Definition tags_or_empty (n : Note) : list jsstring :=
  match tags n with Some l => l | None => [] end.

(** The key of the comparator in [refresh]:
    [a.updated_at || a.created_at || ""]. *)
Definition effective (n : Note) : jsstring :=
  or_else (updated_at n) (or_else (created_at n) []).

(** [(n) => n.id === i]. *)
Definition has_id (i : Z) (n : Note) : bool := id n =? i.

(** ** The controller *)

Section Controller.

Variable localeCompare : jsstring -> jsstring -> Z.
Variable Host : Type.
Variable handle : forall r : Request, Host -> Reply r * Host.

(** A run of handler code: the store, the host, and the interactions so
    far. *)
Record Run : Type := mkRun {
  world : World;
  host : Host;
  trace : list Event
}.

Inductive Completion (A : Type) : Type :=
| Normal (a : A)
| Abrupt (e : JsError).
Arguments Normal {A} a.
Arguments Abrupt {A} e.

Definition Task (A : Type) : Type := Run -> Completion A * Run.

Definition ret {A} (a : A) : Task A := fun c => (Normal a, c).

Definition bind {A B} (t : Task A) (k : A -> Task B) : Task B :=
  fun c =>
    match t c with
    | (Normal a, c') => k a c'
    | (Abrupt e, c') => (Abrupt e, c')
    end.

Definition throw {A} (e : JsError) : Task A := fun c => (Abrupt e, c).

Notation "x <- t ;; k" := (bind t (fun x => k))
  (at level 61, t at next level, right associativity).
Notation "t ;; k" := (bind t (fun _ => k))
  (at level 61, right associativity).

(** [try { body } catch (e) { handler } finally { fin }]. *)
Definition try_catch_finally {A} (body : Task A) (handler : JsError -> Task A)
           (fin : Task unit) : Task A :=
  fun c =>
    let (r, c1) := match body c with
                   | (Normal a, c') => (Normal a, c')
                   | (Abrupt e, c') => handler e c'
                   end in
    match fin c1 with
    | (Normal _, c2) => (r, c2)
    | (Abrupt e, c2) => (Abrupt e, c2)
    end.

(** Reading and assigning the store. *)
Definition read : Task UIState := fun c => (Normal (state (world c)), c).

Definition update (f : World -> World) : Task unit :=
  fun c => (Normal tt, mkRun (f (world c)) (host c) (trace c)).

Definition assign (f : UIState -> UIState) : Task unit :=
  update (on_state f).

(** Handing a request to the host and resuming with its reply. *)
Definition ask (r : Request) : Task (Reply r) :=
  fun c =>
    let (a, h) := handle r (host c) in
    (Normal a, mkRun (world c) h (trace c ++ [mkEvent r (world c)])).

(** [await p]: a fulfilled promise resumes with its value, a rejected one
    throws its reason. *)
Definition await {A} (p : Task (Settled A)) : Task A :=
  s <- p ;;
  match s with
  | Fulfilled a => ret a
  | Rejected e => throw e
  end.

Definition when (b : bool) (t : Task unit) : Task unit :=
  if b then t else ret tt.

(** *** The [api] object *)

(** [api.listNotes(q)]: the query is sent only when it is truthy. *)
Definition api_listNotes (q : option jsstring) : Task (list Note) :=
  await (ask (ListNotes (match q with
                         | Some s => if truthy s then Some s else None
                         | None => None
                         end))).

Definition api_createNote (d : NoteData) : Task Note :=
  await (ask (CreateNote d)).

Definition api_updateNote (i : Z) (d : NoteData) : Task Note :=
  await (ask (UpdateNote i d)).

Definition api_deleteNote (i : Z) : Task unit :=
  await (ask (DeleteNote i)).

(** *** Handlers *)

(** The comparator of [refresh]: [bd.localeCompare(ad)]. *)
Definition byRecency (a b : Note) : Z :=
  let ad := effective a in
  let bd := effective b in
  localeCompare bd ad.

(** [state.notes[0].id]; reading [.id] of [undefined] throws. *)
Definition first_id : Task Z :=
  s <- read ;;
  match notes s with
  | n :: _ => ret (id n)
  | [] => throw (mkError (Some (js "Cannot read properties of undefined")))
  end.

(** The three assignments that load the editor buffer from a note. *)
Definition load_editor (n : Note) : Task unit :=
  assign (set_editTitle (str_or (title n) [])) ;;
  assign (set_editContent (str_or (content n) [])) ;;
  assign (set_editTags (join (js ", ") (tags_or_empty n))).

Definition refresh : Task unit :=
  assign (set_loading true) ;;
  assign (set_error None) ;;
  try_catch_finally
    (s <- read ;;
     found <- api_listNotes (if truthy (search s) then Some (search s) else None) ;;
     assign (set_notes (sort byRecency found)) ;;
     (* Maintain selection if present *)
     s <- read ;;
     match selectedId s with
     | Some sel =>
         let exists_ := existsb (has_id sel) (notes s) in
         when (negb exists_ && (0 <? List.length (notes s))%nat)
              (i <- first_id ;; assign (set_selectedId (Some i))) ;;
         when (negb exists_ && (List.length (notes s) =? 0)%nat)
              (assign (set_selectedId None))
     | None =>
         when (0 <? List.length (notes s))%nat
              (i <- first_id ;; assign (set_selectedId (Some i)))
     end ;;
     (* Load editor buffer for selected *)
     s <- read ;;
     match selectedId s with
     | Some sel =>
         match find (has_id sel) (notes s) with
         | Some n => load_editor n
         | None => ret tt
         end
     | None =>
         assign (set_editTitle []) ;;
         assign (set_editContent []) ;;
         assign (set_editTags [])
     end)
    (fun e => assign (set_error (Some (message_or e (js "Unknown error")))))
    (assign (set_loading false)).

(** [filteredNotes]. *)
Definition filteredNotes (s : UIState) : list Note :=
  match activeTag s with
  | Some t =>
      if truthy t
      then filter (fun n => includes (tags_or_empty n) t) (notes s)
      else notes s
  | None => notes s
  end.

Definition selectNote (i : Z) : Task unit :=
  assign (set_selectedId (Some i)) ;;
  s <- read ;;
  match find (has_id i) (notes s) with
  | Some n => load_editor n
  | None => ret tt
  end.

Definition onCreate : Task unit :=
  update (set_saving true) ;;
  try_catch_finally
    (created <- api_createNote (mkData (js "Untitled") [] []) ;;
     refresh ;;
     assign (set_selectedId (Some (id created))) ;;
     s <- read ;;
     match find (has_id (id created)) (notes s) with
     | Some n => load_editor n
     | None => ret tt
     end)
    (fun e => assign (set_error (Some (message_or e (js "Failed to create note")))))
    (update (set_saving false)).

(** [editTags.split(",").map((s) => s.trim()).filter(Boolean)]. *)
Definition parseTags (s : jsstring) : list jsstring :=
  filter truthy (map trim (split comma s)).

Definition onSave : Task unit :=
  s <- read ;;
  match selectedId s with
  | None => ret tt
  | Some sel =>
      update (set_saving true) ;;
      try_catch_finally
        (s <- read ;;
         let tags := parseTags (editTags s) in
         api_updateNote sel (mkData (editTitle s) (editContent s) tags) ;;
         refresh)
        (fun e => assign (set_error (Some (message_or e (js "Failed to save note")))))
        (update (set_saving false))
  end.

(** [confirm] blocks, so the selection tested by the guard is the one
    passed to [api.deleteNote]. *)
Definition onDelete : Task unit :=
  s <- read ;;
  match selectedId s with
  | None => ret tt
  | Some sel =>
      ok <- ask (Confirm (js "Delete this note?")) ;;
      if negb ok then ret tt
      else
        update (set_deleting true) ;;
        try_catch_finally
          (api_deleteNote sel ;;
           (* reset buffer *)
           assign (set_selectedId None) ;;
           assign (set_editTitle []) ;;
           assign (set_editContent []) ;;
           assign (set_editTags []) ;;
           refresh)
          (fun e => assign (set_error (Some (message_or e (js "Failed to delete note")))))
          (update (set_deleting false))
  end.

Definition onSearch : Task unit := refresh.

(** The [onInput$] handlers of the search box and of the editor fields. *)
Definition onSearchInput (v : jsstring) : Task unit := assign (set_search v).
Definition onTitleInput (v : jsstring) : Task unit := assign (set_editTitle v).
Definition onContentInput (v : jsstring) : Task unit := assign (set_editContent v).
Definition onTagsInput (v : jsstring) : Task unit := assign (set_editTags v).

Definition onTagClick (t : option jsstring) : Task unit :=
  assign (set_activeTag t).

(** Running a handler from a store and a host state. *)
Definition run {A} (t : Task A) (w : World) (h : Host) : Completion A * Run :=
  t (mkRun w h []).

(** The store a handler leaves behind, and the interactions it had. *)
Definition after {A} (t : Task A) (w : World) (h : Host) : World :=
  world (snd (run t w h)).
Definition events {A} (t : Task A) (w : World) (h : Host) : list Event :=
  trace (snd (run t w h)).

End Controller.

Arguments Normal {A} a.
Arguments Abrupt {A} e.
Arguments mkRun {Host} world host trace.
Arguments world {Host} r.
Arguments host {Host} r.
Arguments trace {Host} r.
Arguments ret {Host A} a.
Arguments bind {Host A B} t k.
Arguments throw {Host A} e.
Arguments try_catch_finally {Host A} body handler fin.
Arguments read {Host}.
Arguments update {Host} f.
Arguments assign {Host} f.
Arguments ask {Host} handle r.
Arguments await {Host A} p.
Arguments when {Host} b t.
Arguments first_id {Host}.
Arguments load_editor {Host} n.
Arguments api_listNotes {Host} handle q.
Arguments api_createNote {Host} handle d.
Arguments api_updateNote {Host} handle i d.
Arguments api_deleteNote {Host} handle i.
Arguments refresh localeCompare {Host} handle.
Arguments selectNote {Host} i.
Arguments onCreate localeCompare {Host} handle.
Arguments onSave localeCompare {Host} handle.
Arguments onDelete localeCompare {Host} handle.
Arguments onSearch localeCompare {Host} handle.
Arguments onTagClick {Host} t.
Arguments onSearchInput {Host} v.
Arguments onTitleInput {Host} v.
Arguments onContentInput {Host} v.
Arguments onTagsInput {Host} v.
Arguments run {Host A} t w h.
Arguments after {Host A} t w h.
Arguments events {Host A} t w h.

(** ** Closed forms of a refresh

    What the body of [refresh] leaves in the store once the listing has
    arrived; [refresh_fulfilled] below proves that the handler computes
    exactly this. *)

(** The query [refresh] sends: [state.search || undefined]. *)
Definition query (s : UIState) : option jsstring :=
  if truthy (search s) then Some (search s) else None.

(** The store while the listing is pending. *)
Definition pending (w : World) : World :=
  on_state (fun s => set_error None (set_loading true s)) w.

(** Selection after the snapshot became [l]. *)
Definition reselect (sel : option Z) (l : list Note) : option Z :=
  match sel with
  | Some i => if existsb (has_id i) l then Some i else option_map id (hd_error l)
  | None => option_map id (hd_error l)
  end.

(** The note the selection designates: [notes.find((n) => n.id === sel)]. *)
Definition selected (s : UIState) : option Note :=
  match selectedId s with
  | Some i => find (has_id i) (notes s)
  | None => None
  end.

Definition settled (l : list Note) (s : UIState) : UIState :=
  let sel := reselect (selectedId s) l in
  match sel with
  | Some i =>
      match find (has_id i) l with
      | Some n =>
          mkState l false None sel (title n) (content n)
                  (join (js ", ") (tags_or_empty n)) (search s) (activeTag s)
      | None =>
          mkState l false None sel (editTitle s) (editContent s) (editTags s)
                  (search s) (activeTag s)
      end
  | None => mkState l false None None [] [] [] (search s) (activeTag s)
  end.

(** The store after a handler's [catch] recorded [m] (and, for [refresh], its
    [finally] cleared [loading]). *)
Definition failed (m : jsstring) (s : UIState) : UIState := set_error (Some m) s.

(** The body [onSave] submits: the editor buffer with its tags parsed. *)
Definition draft (s : UIState) : NoteData :=
  mkData (editTitle s) (editContent s) (parseTags (editTags s)).

(** The store once a note was found for the editor. *)
Definition editing (i : Z) (s : UIState) : UIState :=
  match find (has_id i) (notes s) with
  | Some n =>
      mkState (notes s) (loading s) (error s) (Some i) (title n) (content n)
              (join (js ", ") (tags_or_empty n)) (search s) (activeTag s)
  | None => set_selectedId (Some i) s
  end.

Definition cleared (s : UIState) : UIState :=
  mkState (notes s) (loading s) (error s) None [] [] [] (search s) (activeTag s).

(** The defaults [onCreate] submits, and the question [onDelete] asks. *)
Definition blank : NoteData := mkData (js "Untitled") [] [].

Definition prompt : Request := Confirm (js "Delete this note?").

(** ** The claims' wording, for comparison with the code *)

(** Effective timestamp as the specification words it: [updated_at] if
    present, else [created_at], else the empty string. *)
Definition effective_spec (n : Note) : jsstring :=
  match updated_at n with
  | Some u => u
  | None => match created_at n with
            | Some c => c
            | None => []
            end
  end.

(** Visible notes as the specification words them: the snapshot when no
    active tag is set, otherwise the notes whose tags contain it. *)
Definition visibleNotes_spec (snapshot : list Note) (active : option jsstring)
  : list Note :=
  match active with
  | None => snapshot
  | Some t => filter (fun n => includes (tags_or_empty n) t) snapshot
  end.

(** ** A remote notes service *)

(** Modelled from the spec: the REST backend, an external collaborator that
    is not among this repository's sources.  It keeps the collection and
    assigns ids and timestamps; how a query matches is its own business
    ([matches]).  For scenarios, [faults] scripts the outcome of the next
    remote calls ([Some e] rejects the call with [e]) and [confirms] is the
    user's answer to the confirmation dialog. *)
Record Backend : Type := mkBackend {
  stored : list Note;
  next_id : Z;
  now : jsstring;
  matches : jsstring -> Note -> bool;
  faults : list (option JsError);
  confirms : bool
}.

Definition with_stored (l : list Note) (b : Backend) : Backend :=
  mkBackend l (next_id b) (now b) (matches b) (faults b) (confirms b).
Definition with_faults (f : list (option JsError)) (b : Backend) : Backend :=
  mkBackend (stored b) (next_id b) (now b) (matches b) f (confirms b).

(** Modelled from the spec: an update replaces all editable fields of the
    note and stamps it. *)
Definition revise (i : Z) (d : NoteData) (t : jsstring) (n : Note) : Note :=
  if has_id i n
  then mkNote (id n) (d_title d) (d_content d) (Some (d_tags d)) (Some t)
              (created_at n)
  else n.

(** Modelled from the spec: the five operations of the wire contract, served.
    List returns the full or query-filtered collection; create assigns the
    id and the timestamps and returns the note; update replaces the editable
    fields; delete removes. *)
Definition serve (r : Request) (b : Backend) : Reply r * Backend :=
  match r return Reply r * Backend with
  | ListNotes q =>
      (Fulfilled (match q with
                  | Some s => filter (matches b s) (stored b)
                  | None => stored b
                  end), b)
  | CreateNote d =>
      let n := mkNote (next_id b) (d_title d) (d_content d) (Some (d_tags d))
                      (Some (now b)) (Some (now b)) in
      (Fulfilled n,
       mkBackend (stored b ++ [n]) (next_id b + 1) (now b) (matches b)
                 (faults b) (confirms b))
  | UpdateNote i d =>
      match find (has_id i) (stored b) with
      | Some n =>
          (Fulfilled (revise i d (now b) n),
           with_stored (map (revise i d (now b)) (stored b)) b)
      | None =>
          (Rejected (mkError (Some (js "Failed to update note: 404"))), b)
      end
  | DeleteNote i =>
      (Fulfilled tt,
       with_stored (filter (fun n => negb (has_id i n)) (stored b)) b)
  | Confirm _ => (confirms b, b)
  end.

(** Modelled from the spec: a non-success response or a transport failure
    rejects the call and leaves the collection as it is. *)
Definition reject (r : Request) (e : JsError) (b : Backend) : Reply r * Backend :=
  match r return Reply r * Backend with
  | ListNotes _ => (Rejected e, b)
  | CreateNote _ => (Rejected e, b)
  | UpdateNote _ _ => (Rejected e, b)
  | DeleteNote _ => (Rejected e, b)
  | Confirm _ => (confirms b, b)
  end.

(** Modelled from the spec: the host made of the service and the user.  Each
    remote call consumes one entry of the fault script, if any is left. *)
Definition backend (r : Request) (b : Backend) : Reply r * Backend :=
  match r with
  | Confirm _ => serve r b
  | _ =>
      match faults b with
      | Some e :: rest => reject r e (with_faults rest b)
      | None :: rest => serve r (with_faults rest b)
      | [] => serve r b
      end
  end.

(** Substring search, for a service that matches a query against the text
    of a note. *)
Fixpoint starts_with (p s : jsstring) : bool :=
  match p, s with
  | [], _ => true
  | _ :: _, [] => false
  | x :: p', y :: s' => (x =? y)%N && starts_with p' s'
  end.

Fixpoint contains (p s : jsstring) : bool :=
  starts_with p s || match s with
                     | [] => false
                     | _ :: r => contains p r
                     end.

(** ** Sample data *)

Definition groceries : Note :=
  mkNote 1 (js "Groceries") (js "milk, eggs") (Some [js "home"; js "todo"])
         (Some (js "2024-03-02T09:00:00Z")) (Some (js "2024-03-01T08:00:00Z")).

Definition standup : Note :=
  mkNote 2 (js "Standup") (js "blockers?") (Some [js "work"])
         None (Some (js "2024-04-01T08:00:00Z")).

Definition scrap : Note := mkNote 3 (js "Scrap") [] None None None.

(** A note whose [updated_at] is present but empty, with an empty tag. *)
Definition imported : Note :=
  mkNote 4 (js "Imported") (js "from backup") (Some [[]])
         (Some []) (Some (js "2024-06-01T00:00:00Z")).

(** A service holding [l] that matches a query as a substring of the title
    or the content, with a frozen clock, no scripted faults and a user who
    confirms. *)
Definition service (l : list Note) (next : Z) : Backend :=
  mkBackend l next (js "2024-05-01T10:00:00Z")
            (fun q n => contains q (title n) || contains q (content n)) [] true.

(** The error the [api] object throws on a 500 response. *)
Definition http500 (what : string) : JsError :=
  mkError (Some (js what ++ js ": 500")).

(** A service whose next remote calls follow the script [f]. *)
Definition flaky (f : list (option JsError)) (l : list Note) (next : Z) : Backend :=
  with_faults f (service l next).

(** The same service with a user who declines. *)
Definition declining (b : Backend) : Backend :=
  mkBackend (stored b) (next_id b) (now b) (matches b) (faults b) false.

(** The store once the startup refresh has listed [l]. *)
Definition loaded (l : list Note) : World :=
  after (refresh codeUnitCompare backend) initialWorld (service l 100).

(** The host as a handler leaves it. *)
Definition host_after {Host A : Type} (r : Completion A * Run Host) : Host :=
  host (snd r).

(** ** The rest of the component *)

(** [getApiBase]: the configured endpoint when it is set and not blank,
    otherwise the relative [/api]. *)
Definition getApiBase (configured : option jsstring) : jsstring :=
  match configured with
  | Some c =>
      if truthy c && (0 <? List.length (trim c))%nat then c else js "/api"
  | None => js "/api"
  end.

(** [all.add(t)] on a [Set], whose iteration order is insertion order. *)
Definition set_add (all : list jsstring) (t : jsstring) : list jsstring :=
  if includes all t then all else all ++ [t].

(** The loop of the [tags] computed value: every tag of every note, added to
    one set. *)
Definition collectTags (l : list Note) : list jsstring :=
  fold_left (fun all n => fold_left set_add (tags_or_empty n) all) l [].

(** The [tags] computed value, listed in the sidebar:
    [Array.from(all).sort((a, b) => a.localeCompare(b))]. *)
Definition sidebarTags (localeCompare : jsstring -> jsstring -> Z) (s : UIState)
  : list jsstring :=
  sort localeCompare (collectTags (notes s)).

(** The heading of a note card:
    [n.title && n.title.trim().length > 0 ? n.title : "Untitled"]. *)
Definition cardTitle (n : Note) : jsstring :=
  if truthy (title n) && (0 <? List.length (trim (title n)))%nat
  then title n else js "Untitled".

(** What the markup derives from the store: the [disabled] attributes of the
    three buttons and the condition of the "No notes found" placeholder. *)
Definition newDisabled (w : World) : bool := saving w.

Definition saveDisabled (w : World) : bool :=
  saving w || match selectedId (state w) with None => true | Some _ => false end.

Definition deleteDisabled (w : World) : bool :=
  deleting w || match selectedId (state w) with None => true | Some _ => false end.

Definition showsNoNotes (s : UIState) : bool :=
  negb (loading s) && (List.length (filteredNotes s) =? 0)%nat.

(** ** Vocabulary of the further properties *)

(** The selection designates a note of the snapshot, or nothing. *)
Definition selection_valid (s : UIState) : Prop :=
  match selectedId s with
  | Some i => exists n, In n (notes s) /\ id n = i
  | None => True
  end.

(** A tag that survives [parseTags] unchanged: not empty, no white space at
    either end, no comma. *)
Definition clean (t : jsstring) : Prop :=
  t <> [] /\ trim t = t /\ ~ In comma t.

(** The two stores a refresh started in [w] can leave: the listing [l]
    settled in, or a message recorded. *)
Definition refresh_results (localeCompare : jsstring -> jsstring -> Z)
           (w w' : World) : Prop :=
  (exists found,
      w' = on_state (settled (sort (byRecency localeCompare) found)) w) \/
  (exists m, w' = on_state (fun s => set_loading false (failed m s)) w).


(** * Properties *)

(** ** How the handlers run *)

Lemma str_or_nil (s : jsstring) : str_or s [] = s.
Proof. now destruct s. Qed.

Lemma has_id_self (n : Note) : has_id (id n) n = true.
Proof. apply Z.eqb_refl. Qed.

Lemma query_truthy (s : UIState) :
  match query s with
  | Some q => if truthy q then Some q else None
  | None => None
  end = query s.
Proof.
  unfold query. destruct (truthy (search s)) eqn:E; [now rewrite E | reflexivity].
Qed.

Lemma reselect_found (sel : option Z) (l : list Note) (i : Z) :
  reselect sel l = Some i -> exists n, find (has_id i) l = Some n.
Proof.
  assert (Hhd : option_map id (hd_error l) = Some i ->
                exists n, find (has_id i) l = Some n).
  { destruct l as [|n r]; simpl; [discriminate|].
    intros [= <-]. exists n. unfold has_id. now rewrite Z.eqb_refl. }
  unfold reselect. destruct sel as [j|]; [|exact Hhd].
  destruct (existsb (has_id j) l) eqn:E; [|exact Hhd].
  intros [= <-]. destruct (find (has_id j) l) eqn:F; [eauto|].
  apply existsb_exists in E. destruct E as [n [Hin Hn]].
  now rewrite (find_none _ _ F n Hin) in Hn.
Qed.

Section Runs.

Variable localeCompare : jsstring -> jsstring -> Z.
Variable Host : Type.
Variable handle : forall r : Request, Host -> Reply r * Host.

(** A refresh whose listing is fulfilled. *)
Lemma refresh_fulfilled (c : Run Host) (found : list Note) (h' : Host) :
  handle (ListNotes (query (state (world c)))) (host c) = (Fulfilled found, h') ->
  refresh localeCompare handle c =
    (Normal tt,
     mkRun (on_state (settled (sort (byRecency localeCompare) found)) (world c))
           h'
           (trace c ++ [mkEvent (ListNotes (query (state (world c))))
                                (pending (world c))])).
Proof.
  intros Hl. destruct c as [[s sv dl] h t]. simpl in Hl.
  unfold refresh, try_catch_finally, bind, assign, update, read,
    api_listNotes, await, ask, bind; simpl.
  fold (query s). rewrite query_truthy. rewrite Hl. simpl.
  set (l := sort (byRecency localeCompare) found).
  destruct s as [ns ld er sel et ec eg se ac].
  unfold pending, on_state, settled, load_editor, first_id, when, bind,
    assign, update, read, ret, on_state; simpl.
  destruct sel as [i|]; simpl.
  - destruct (existsb (has_id i) l) eqn:He; simpl.
    + destruct (find (has_id i) l) as [n|] eqn:Hf; simpl.
      * rewrite !str_or_nil; reflexivity.
      * reflexivity.
    + destruct l as [|n r] eqn:Hl'; simpl.
      * reflexivity.
      * rewrite !has_id_self. simpl.
        rewrite !str_or_nil; reflexivity.
  - destruct l as [|n r] eqn:Hl'; simpl.
    + reflexivity.
    + rewrite !has_id_self. simpl.
      rewrite !str_or_nil; reflexivity.
Qed.

(** A refresh whose listing is rejected. *)
Lemma refresh_rejected (c : Run Host) (e : JsError) (h' : Host) :
  handle (ListNotes (query (state (world c)))) (host c) = (Rejected e, h') ->
  refresh localeCompare handle c =
    (Normal tt,
     mkRun (on_state (fun s => set_loading false
                                 (failed (message_or e (js "Unknown error")) s))
                     (world c))
           h'
           (trace c ++ [mkEvent (ListNotes (query (state (world c))))
                                (pending (world c))])).
Proof.
  intros Hl. destruct c as [[s sv dl] h t]. simpl in Hl.
  unfold refresh, try_catch_finally, bind, assign, update, read,
    api_listNotes, await, ask, bind; simpl.
  fold (query s). rewrite query_truthy. rewrite Hl. simpl.
  reflexivity.
Qed.

End Runs.

(** ** Sorting with a consistent comparator *)

Section SortFacts.

Context {A : Type} (cmp : A -> A -> Z).

Lemma insert_perm (x : A) (l : list A) : Permutation (x :: l) (insert cmp x l).
Proof.
  induction l as [|y r IH]; simpl; [reflexivity|].
  destruct (cmp x y <=? 0); [reflexivity|].
  rewrite perm_swap. now apply perm_skip.
Qed.

Lemma sort_perm (l : list A) : Permutation l (sort cmp l).
Proof.
  induction l as [|x r IH]; simpl; [reflexivity|].
  rewrite <- insert_perm. now apply perm_skip.
Qed.

(** Elements that are pairwise tied keep their relative order: inserting
    never moves an element past one it does not strictly follow. *)
Lemma insert_stable (P : A -> bool) (x : A) (l : list A) :
  (forall a b, P a = true -> P b = true -> cmp a b <= 0) ->
  filter P (insert cmp x l) = filter P (x :: l).
Proof.
  intros Htie. induction l as [|y r IH]; [reflexivity|].
  simpl insert. destruct (cmp x y <=? 0) eqn:E; [reflexivity|].
  apply Z.leb_gt in E. simpl in *. rewrite IH.
  destruct (P x) eqn:Px, (P y) eqn:Py; try reflexivity.
  specialize (Htie x y Px Py). lia.
Qed.

Lemma sort_stable (P : A -> bool) (l : list A) :
  (forall a b, P a = true -> P b = true -> cmp a b <= 0) ->
  filter P (sort cmp l) = filter P l.
Proof.
  intros Htie. induction l as [|x r IH]; [reflexivity|].
  simpl sort. rewrite insert_stable by assumption.
  simpl. now rewrite IH.
Qed.

Hypothesis cmp_total : forall a b, 0 < cmp a b -> cmp b a <= 0.
Hypothesis cmp_trans :
  forall a b c, cmp a b <= 0 -> cmp b c <= 0 -> cmp a c <= 0.

Lemma insert_sorted (x : A) (l : list A) :
  StronglySorted (fun a b => cmp a b <= 0) l ->
  StronglySorted (fun a b => cmp a b <= 0) (insert cmp x l).
Proof.
  induction 1 as [|y r Hr IH Hy]; simpl.
  - constructor; constructor.
  - destruct (cmp x y <=? 0) eqn:E.
    + apply Z.leb_le in E. constructor.
      * now constructor.
      * constructor; [assumption|].
        eapply Forall_impl; [|exact Hy]. intros b Hb. now apply cmp_trans with y.
    + apply Z.leb_gt in E. constructor; [assumption|].
      eapply Permutation_Forall; [apply insert_perm|].
      constructor; [now apply cmp_total | assumption].
Qed.

Lemma sort_sorted (l : list A) :
  StronglySorted (fun a b => cmp a b <= 0) (sort cmp l).
Proof.
  induction l as [|x r IH]; simpl; [constructor | now apply insert_sorted].
Qed.

End SortFacts.

(** In a strongly sorted list every element is related to all later ones. *)
Lemma StronglySorted_later {A : Type} (R : A -> A -> Prop) (l1 l2 : list A) (a : A) :
  StronglySorted R (l1 ++ a :: l2) -> Forall (R a) l2.
Proof.
  induction l1 as [|x l1 IH]; simpl; intros H; inversion H; subst; auto.
Qed.

(** ** Code-unit order is a consistent comparator *)

Lemma codeUnitCompare_sgn (a b : jsstring) :
  Z.sgn (codeUnitCompare a b) = - Z.sgn (codeUnitCompare b a).
Proof.
  revert b. induction a as [|x a IH]; intros [|y b]; simpl; try reflexivity.
  rewrite (N.compare_antisym x y).
  destruct (x ?= y)%N; simpl; auto.
Qed.

Lemma codeUnitCompare_trans (a b c : jsstring) :
  codeUnitCompare a b <= 0 -> codeUnitCompare b c <= 0 -> codeUnitCompare a c <= 0.
Proof.
  revert b c. induction a as [|x a IH]; intros [|y b] [|z c]; simpl; try lia.
  destruct (N.compare_spec x y), (N.compare_spec y z), (N.compare_spec x z);
    subst; try lia; eauto.
Qed.

Lemma codeUnitCompare_empty (a : jsstring) : codeUnitCompare [] a <= 0.
Proof. destruct a; simpl; lia. Qed.

(** ** The store after a refresh *)

Lemma settled_notes (l : list Note) (s : UIState) : notes (settled l s) = l.
Proof.
  unfold settled. destruct (reselect (selectedId s) l); [|reflexivity].
  now destruct (find _ l).
Qed.

Lemma settled_selectedId (l : list Note) (s : UIState) :
  selectedId (settled l s) = reselect (selectedId s) l.
Proof.
  unfold settled. destruct (reselect (selectedId s) l); [|reflexivity].
  now destruct (find _ l).
Qed.

Lemma settled_loading (l : list Note) (s : UIState) : loading (settled l s) = false.
Proof.
  unfold settled. destruct (reselect (selectedId s) l); [|reflexivity].
  now destruct (find _ l).
Qed.

Lemma settled_error (l : list Note) (s : UIState) : error (settled l s) = None.
Proof.
  unfold settled. destruct (reselect (selectedId s) l); [|reflexivity].
  now destruct (find _ l).
Qed.

(** After a refresh the editor shows the selected note, or nothing. *)
Lemma settled_editor (l : list Note) (s : UIState) :
  match selectedId (settled l s) with
  | Some i =>
      exists n, find (has_id i) (notes (settled l s)) = Some n /\
                editTitle (settled l s) = title n /\
                editContent (settled l s) = content n /\
                editTags (settled l s) = join (js ", ") (tags_or_empty n)
  | None =>
      editTitle (settled l s) = [] /\ editContent (settled l s) = [] /\
      editTags (settled l s) = []
  end.
Proof.
  rewrite settled_selectedId, settled_notes.
  destruct (reselect (selectedId s) l) as [i|] eqn:R.
  - destruct (reselect_found _ _ _ R) as [n Hn]. exists n.
    unfold settled. rewrite R, Hn. simpl. auto.
  - unfold settled. rewrite R. simpl. auto.
Qed.

Section AfterRefresh.

Variable localeCompare : jsstring -> jsstring -> Z.
Variable Host : Type.
Variable handle : forall r : Request, Host -> Reply r * Host.

Lemma after_refresh_fulfilled (w : World) (h h' : Host) (found : list Note) :
  handle (ListNotes (query (state w))) h = (Fulfilled found, h') ->
  after (refresh localeCompare handle) w h =
    on_state (settled (sort (byRecency localeCompare) found)) w.
Proof.
  intros Hl. unfold after, run.
  now rewrite (refresh_fulfilled _ _ _ (mkRun w h []) found h' Hl).
Qed.

Lemma after_refresh_rejected (w : World) (h h' : Host) (e : JsError) :
  handle (ListNotes (query (state w))) h = (Rejected e, h') ->
  after (refresh localeCompare handle) w h =
    on_state (fun s => set_loading false
                         (failed (message_or e (js "Unknown error")) s)) w.
Proof.
  intros Hl. unfold after, run.
  now rewrite (refresh_rejected _ _ _ (mkRun w h []) e h' Hl).
Qed.

End AfterRefresh.

(** ** Ordering of the snapshot *)

Lemma effective_cases (n : Note) :
  (forall u, updated_at n = Some u -> u <> [] -> effective n = u) /\
  (forall c, updated_at n = None \/ updated_at n = Some [] ->
             created_at n = Some c -> c <> [] -> effective n = c) /\
  (updated_at n = None \/ updated_at n = Some [] ->
   created_at n = None \/ created_at n = Some [] -> effective n = []).
Proof.
  unfold effective, or_else. repeat split.
  - intros u -> Hu. now destruct u.
  - intros c [->| ->] -> Hc; now destruct c.
  - intros [->| ->] [->| ->]; reflexivity.
Qed.

Section Collation.

Variable localeCompare : jsstring -> jsstring -> Z.

(** [localeCompare] is a consistent comparator under which the empty
    string comes first. *)
Hypothesis lc_sgn :
  forall a b, Z.sgn (localeCompare a b) = - Z.sgn (localeCompare b a).
Hypothesis lc_trans :
  forall a b c, localeCompare a b <= 0 -> localeCompare b c <= 0 ->
                localeCompare a c <= 0.
Hypothesis lc_empty : forall a, localeCompare [] a <= 0.

Variable Host : Type.
Variable handle : forall r : Request, Host -> Reply r * Host.

Lemma byRecency_total (a b : Note) :
  0 < byRecency localeCompare a b -> byRecency localeCompare b a <= 0.
Proof.
  unfold byRecency. intros H.
  pose proof (lc_sgn (effective b) (effective a)). lia.
Qed.

Lemma byRecency_trans (a b c : Note) :
  byRecency localeCompare a b <= 0 -> byRecency localeCompare b c <= 0 ->
  byRecency localeCompare a c <= 0.
Proof. unfold byRecency. intros H1 H2. exact (lc_trans _ _ _ H2 H1). Qed.

Lemma byRecency_tied (k : jsstring) (a b : Note) :
  (localeCompare (effective a) k =? 0) = true ->
  (localeCompare (effective b) k =? 0) = true ->
  byRecency localeCompare a b <= 0.
Proof.
  unfold byRecency. intros Ha%Z.eqb_eq Hb%Z.eqb_eq.
  apply lc_trans with k; [lia|].
  pose proof (lc_sgn (effective a) k). lia.
Qed.

(** C1 (as amended): after a successful [refresh] the snapshot is the
    remote listing reordered by descending effective timestamp, the
    effective timestamp being [updated_at] when present and non-empty, else
    [created_at] when present and non-empty, else the empty string, and
    compared by [localeCompare] on the raw string.  The snapshot is a
    permutation of the listing; every note's key is at least the key of
    every later note; notes whose keys compare equal keep the order of the
    listing; and after a note without timestamp come only notes whose key
    compares equal to the empty string. *)
Theorem refresh_orders_by_effective_timestamp
        (w : World) (h h' : Host) (found : list Note) :
  handle (ListNotes (query (state w))) h = (Fulfilled found, h') ->
  let snapshot := notes (state (after (refresh localeCompare handle) w h)) in
  snapshot = sort (byRecency localeCompare) found /\
  Permutation found snapshot /\
  StronglySorted
    (fun a b => localeCompare (effective b) (effective a) <= 0) snapshot /\
  (forall k,
      filter (fun n => localeCompare (effective n) k =? 0) snapshot =
      filter (fun n => localeCompare (effective n) k =? 0) found) /\
  (forall l1 a l2,
      snapshot = l1 ++ a :: l2 -> effective a = [] ->
      Forall (fun b => localeCompare (effective b) [] = 0) l2) /\
  (forall n,
      (forall u, updated_at n = Some u -> u <> [] -> effective n = u) /\
      (forall c, updated_at n = None \/ updated_at n = Some [] ->
                 created_at n = Some c -> c <> [] -> effective n = c) /\
      (updated_at n = None \/ updated_at n = Some [] ->
       created_at n = None \/ created_at n = Some [] -> effective n = [])).
Proof.
  intros Hl snapshot.
  assert (Hs : snapshot = sort (byRecency localeCompare) found).
  { unfold snapshot. rewrite (after_refresh_fulfilled _ _ _ _ _ _ _ Hl).
    apply settled_notes. }
  assert (Hsorted : StronglySorted
            (fun a b => localeCompare (effective b) (effective a) <= 0) snapshot).
  { rewrite Hs.
    apply (sort_sorted (byRecency localeCompare) byRecency_total byRecency_trans). }
  split; [exact Hs|]. split; [rewrite Hs; apply sort_perm|].
  split; [exact Hsorted|]. split; [|split].
  - intros k. rewrite Hs. apply sort_stable. apply byRecency_tied.
  - intros l1 a l2 E Ha. rewrite E in Hsorted.
    apply StronglySorted_later in Hsorted.
    eapply Forall_impl; [|exact Hsorted]. simpl. intros b Hb. rewrite Ha in Hb.
    pose proof (lc_empty (effective b)).
    pose proof (lc_sgn (effective b) []). lia.
  - apply effective_cases.
Qed.

End Collation.

Lemma refresh_orders_by_effective_timestamp_witness :
  backend (ListNotes (query (state initialWorld)))
          (service [scrap; groceries; standup] 4)
  = (Fulfilled [scrap; groceries; standup], service [scrap; groceries; standup] 4)
  /\ notes (state (after (refresh codeUnitCompare backend) initialWorld
                         (service [scrap; groceries; standup] 4)))
     = [standup; groceries; scrap].
Proof.
  split; [reflexivity|].
  etransitivity.
  - exact (proj1 (refresh_orders_by_effective_timestamp
                    codeUnitCompare codeUnitCompare_sgn codeUnitCompare_trans
                    codeUnitCompare_empty Backend backend initialWorld
                    (service [scrap; groceries; standup] 4) _ _ eq_refl)).
  - reflexivity.
Defined.

(** C1 as worded fails: a note whose [updated_at] is the empty string is
    keyed by its [created_at], so it does not sort by the effective timestamp
    of the wording (under which it would have the empty key and come last),
    even when strings are compared by code unit. *)
Lemma refresh_ignores_empty_updated_at :
  let snapshot :=
    notes (state (after (refresh codeUnitCompare backend) initialWorld
                        (service [standup; imported] 5))) in
  snapshot = [imported; standup] /\
  effective_spec imported = [] /\
  sort (fun a b => codeUnitCompare (effective_spec b) (effective_spec a))
       [standup; imported] = [standup; imported] /\
  ~ StronglySorted
      (fun a b => codeUnitCompare (effective_spec b) (effective_spec a) <= 0)
      snapshot.
Proof.
  split; [reflexivity|]. split; [reflexivity|]. split; [reflexivity|].
  intros H. inversion H as [|a l _ Hall]; subst.
  inversion Hall as [|b l' Hb _]; subst.
  vm_compute in Hb. now apply Hb.
Qed.

(** ** Selection and editor buffer *)

Lemma existsb_has_id (i : Z) (l : list Note) :
  existsb (has_id i) l = true <-> exists n, In n l /\ id n = i.
Proof.
  rewrite existsb_exists. unfold has_id.
  split; intros [n [Hin Hn]]; exists n; split; auto; now apply Z.eqb_eq.
Qed.

(** C2: after a successful [refresh], a missing selection becomes the first
    snapshot entry when there is one; a selected id that is absent from the
    new snapshot is replaced by the first entry, or by none when the snapshot
    is empty; a selected id that is still present stays. *)
Theorem refresh_reconciles_selection
        (localeCompare : jsstring -> jsstring -> Z) (Host : Type)
        (handle : forall r : Request, Host -> Reply r * Host)
        (w : World) (h h' : Host) (found : list Note) :
  handle (ListNotes (query (state w))) h = (Fulfilled found, h') ->
  let old := selectedId (state w) in
  let snapshot := notes (state (after (refresh localeCompare handle) w h)) in
  let new := selectedId (state (after (refresh localeCompare handle) w h)) in
  snapshot = sort (byRecency localeCompare) found /\
  (old = None -> forall n r, snapshot = n :: r -> new = Some (id n)) /\
  (forall i, old = Some i -> (forall n, In n snapshot -> id n <> i) ->
             (forall n r, snapshot = n :: r -> new = Some (id n)) /\
             (snapshot = [] -> new = None)) /\
  (forall i, old = Some i -> (exists n, In n snapshot /\ id n = i) ->
             new = Some i).
Proof.
  intros Hl old snapshot new. unfold snapshot, new.
  rewrite (after_refresh_fulfilled _ _ _ _ _ _ _ Hl). simpl.
  rewrite settled_notes, settled_selectedId. fold old.
  set (l := sort (byRecency localeCompare) found).
  split; [reflexivity|]. split; [|split].
  - intros -> n r ->. reflexivity.
  - intros i -> Habsent.
    assert (E : existsb (has_id i) l = false).
    { destruct (existsb (has_id i) l) eqn:E; [|reflexivity].
      apply existsb_has_id in E. destruct E as [n [Hin Hn]].
      now destruct (Habsent n Hin). }
    unfold reselect. rewrite E. split; [intros n r ->|intros ->]; reflexivity.
  - intros i -> Hpresent. apply existsb_has_id in Hpresent.
    unfold reselect. now rewrite Hpresent.
Qed.

Lemma refresh_reconciles_selection_witness :
  selectedId (state (after (refresh codeUnitCompare backend) initialWorld
                           (service [groceries; standup] 3))) = Some 2 /\
  selectedId (state (after (refresh codeUnitCompare backend) (loaded [scrap])
                           (service [groceries; standup] 3))) = Some 2 /\
  selectedId (state (after (refresh codeUnitCompare backend) (loaded [scrap])
                           (service [] 1))) = None /\
  selectedId (state (after (refresh codeUnitCompare backend) (loaded [groceries])
                           (service [groceries; standup] 3))) = Some 1.
Proof.
  split; [|split; [|split]].
  - destruct (refresh_reconciles_selection codeUnitCompare Backend backend
                initialWorld (service [groceries; standup] 3) _ _ eq_refl)
      as [_ [Hnone _]].
    exact (Hnone eq_refl standup [groceries] eq_refl).
  - destruct (refresh_reconciles_selection codeUnitCompare Backend backend
                (loaded [scrap]) (service [groceries; standup] 3) _ _ eq_refl)
      as [_ [_ [Hgone _]]].
    refine (proj1 (Hgone 3 eq_refl _) standup [groceries] eq_refl).
    intros n [<-|[<-|[]]]; discriminate.
  - destruct (refresh_reconciles_selection codeUnitCompare Backend backend
                (loaded [scrap]) (service [] 1) _ _ eq_refl)
      as [_ [_ [Hgone _]]].
    refine (proj2 (Hgone 3 eq_refl _) eq_refl).
    intros n [].
  - destruct (refresh_reconciles_selection codeUnitCompare Backend backend
                (loaded [groceries]) (service [groceries; standup] 3) _ _ eq_refl)
      as [_ [_ [_ Hkept]]].
    apply (Hkept 1 eq_refl). exists groceries. split; [right; left|]; reflexivity.
Defined.

(** ** How the other handlers run *)

Ltac step :=
  unfold try_catch_finally, bind, assign, update, read, ret, throw, when,
    api_listNotes, api_createNote, api_updateNote, api_deleteNote, await, ask,
    load_editor, bind, on_state; simpl.

Section Handlers.

Variable localeCompare : jsstring -> jsstring -> Z.
Variable Host : Type.
Variable handle : forall r : Request, Host -> Reply r * Host.

Lemma selectNote_run (i : Z) (c : Run Host) :
  selectNote i c =
    (Normal tt, mkRun (on_state (editing i) (world c)) (host c) (trace c)).
Proof.
  destruct c as [[s sv dl] h t]. unfold selectNote, editing. step.
  destruct (find (has_id i) (notes s)) as [n|]; simpl; [|reflexivity].
  rewrite !str_or_nil. reflexivity.
Qed.

(** [refresh] always completes normally, after exactly one listing. *)
Lemma refresh_completes (c : Run Host) :
  exists w' h',
    refresh localeCompare handle c =
      (Normal tt,
       mkRun w' h' (trace c ++ [mkEvent (ListNotes (query (state (world c))))
                                        (pending (world c))])).
Proof.
  destruct (handle (ListNotes (query (state (world c)))) (host c))
    as [[found|e] h'] eqn:Hl.
  - rewrite (refresh_fulfilled _ _ _ c found h' Hl). eauto.
  - rewrite (refresh_rejected _ _ _ c e h' Hl). eauto.
Qed.

(** *** [onSave] *)

Lemma onSave_unselected (c : Run Host) :
  selectedId (state (world c)) = None ->
  onSave localeCompare handle c = (Normal tt, c).
Proof. intros Hs. unfold onSave. step. now rewrite Hs. Qed.

Lemma onSave_rejected (c : Run Host) (i : Z) (e : JsError) (h1 : Host) :
  selectedId (state (world c)) = Some i ->
  handle (UpdateNote i (draft (state (world c)))) (host c) = (Rejected e, h1) ->
  onSave localeCompare handle c =
    (Normal tt,
     mkRun (set_saving false
              (on_state (failed (message_or e (js "Failed to save note")))
                        (world c)))
           h1
           (trace c ++ [mkEvent (UpdateNote i (draft (state (world c))))
                                (set_saving true (world c))])).
Proof.
  intros Hs Hu. unfold onSave. step. rewrite Hs. step.
  fold (draft (state (world c))). rewrite Hu. reflexivity.
Qed.

Lemma onSave_fulfilled (c : Run Host) (i : Z) (n : Note) (h1 : Host) :
  selectedId (state (world c)) = Some i ->
  handle (UpdateNote i (draft (state (world c)))) (host c) = (Fulfilled n, h1) ->
  onSave localeCompare handle c =
    (Normal tt,
     let c' := snd (refresh localeCompare handle
                      (mkRun (set_saving true (world c)) h1
                             (trace c ++ [mkEvent (UpdateNote i (draft (state (world c))))
                                                  (set_saving true (world c))]))) in
     mkRun (set_saving false (world c')) (host c') (trace c')).
Proof.
  intros Hs Hu. unfold onSave. step. rewrite Hs. step.
  fold (draft (state (world c))). rewrite Hu. simpl.
  match goal with |- context [refresh _ _ ?r] =>
    destruct (refresh_completes r) as [w' [h' ->]] end.
  reflexivity.
Qed.

(** *** [onCreate] *)

Lemma onCreate_rejected (c : Run Host) (e : JsError) (h1 : Host) :
  handle (CreateNote blank) (host c) = (Rejected e, h1) ->
  onCreate localeCompare handle c =
    (Normal tt,
     mkRun (set_saving false
              (on_state (failed (message_or e (js "Failed to create note")))
                        (world c)))
           h1
           (trace c ++ [mkEvent (CreateNote blank) (set_saving true (world c))])).
Proof.
  intros Hc. unfold onCreate. step. fold blank. rewrite Hc. reflexivity.
Qed.

Lemma onCreate_fulfilled (c : Run Host) (created : Note) (h1 : Host) :
  handle (CreateNote blank) (host c) = (Fulfilled created, h1) ->
  onCreate localeCompare handle c =
    (Normal tt,
     let c' := snd (refresh localeCompare handle
                      (mkRun (set_saving true (world c)) h1
                             (trace c ++ [mkEvent (CreateNote blank)
                                                  (set_saving true (world c))]))) in
     mkRun (set_saving false (on_state (editing (id created)) (world c')))
           (host c') (trace c')).
Proof.
  intros Hc. unfold onCreate. step. fold blank. rewrite Hc. simpl.
  match goal with |- context [refresh _ _ ?r] =>
    destruct (refresh_completes r) as [w' [h' ->]] end.
  simpl. unfold editing.
  destruct (find (has_id (id created)) (notes (state w'))) as [n|]; simpl;
    [|reflexivity].
  rewrite !str_or_nil. reflexivity.
Qed.

(** *** [onDelete] *)

Lemma onDelete_unselected (c : Run Host) :
  selectedId (state (world c)) = None ->
  onDelete localeCompare handle c = (Normal tt, c).
Proof. intros Hs. unfold onDelete. step. now rewrite Hs. Qed.

Lemma onDelete_declined (c : Run Host) (i : Z) (h1 : Host) :
  selectedId (state (world c)) = Some i ->
  handle prompt (host c) = (false, h1) ->
  onDelete localeCompare handle c =
    (Normal tt, mkRun (world c) h1 (trace c ++ [mkEvent prompt (world c)])).
Proof.
  intros Hs Hp. unfold onDelete. step. rewrite Hs. step.
  fold prompt. rewrite Hp. reflexivity.
Qed.

Lemma onDelete_rejected (c : Run Host) (i : Z) (e : JsError) (h1 h2 : Host) :
  selectedId (state (world c)) = Some i ->
  handle prompt (host c) = (true, h1) ->
  handle (DeleteNote i) h1 = (Rejected e, h2) ->
  onDelete localeCompare handle c =
    (Normal tt,
     mkRun (set_deleting false
              (on_state (failed (message_or e (js "Failed to delete note")))
                        (world c)))
           h2
           ((trace c ++ [mkEvent prompt (world c)])
              ++ [mkEvent (DeleteNote i) (set_deleting true (world c))])).
Proof.
  intros Hs Hp Hd. unfold onDelete. step. rewrite Hs. step.
  fold prompt. rewrite Hp. simpl. rewrite Hd. reflexivity.
Qed.

Lemma onDelete_fulfilled (c : Run Host) (i : Z) (h1 h2 : Host) :
  selectedId (state (world c)) = Some i ->
  handle prompt (host c) = (true, h1) ->
  handle (DeleteNote i) h1 = (Fulfilled tt, h2) ->
  onDelete localeCompare handle c =
    (Normal tt,
     let c' := snd (refresh localeCompare handle
                      (mkRun (set_deleting true (on_state cleared (world c))) h2
                             ((trace c ++ [mkEvent prompt (world c)])
                                ++ [mkEvent (DeleteNote i)
                                            (set_deleting true (world c))]))) in
     mkRun (set_deleting false (world c')) (host c') (trace c')).
Proof.
  intros Hs Hp Hd.
  set (r0 := mkRun (set_deleting true (on_state cleared (world c))) h2 _).
  unfold onDelete. step. rewrite Hs. step.
  fold prompt. rewrite Hp. simpl. rewrite Hd. simpl.
  match goal with |- context [refresh _ _ (mkRun ?a ?b ?d)] =>
    change (mkRun a b d) with r0 end.
  destruct (refresh_completes r0) as [w' [h' ->]]. reflexivity.
Qed.

End Handlers.

Lemma find_has_id (i : Z) (l : list Note) :
  (exists n, In n l /\ id n = i) ->
  exists n, find (has_id i) l = Some n /\ In n l /\ id n = i.
Proof.
  intros H. apply existsb_has_id in H.
  destruct (find (has_id i) l) as [n|] eqn:F.
  - exists n. destruct (find_some _ _ F) as [Hin Hn].
    repeat split; auto. now apply Z.eqb_eq.
  - apply existsb_exists in H. destruct H as [n [Hin Hn]].
    now rewrite (find_none _ _ F n Hin) in Hn.
Qed.

Lemma find_has_id_none (i : Z) (l : list Note) :
  (forall n, In n l -> id n <> i) -> find (has_id i) l = None.
Proof.
  intros H. destruct (find (has_id i) l) as [n|] eqn:F; [|reflexivity].
  destruct (find_some _ _ F) as [Hin Hn]. apply Z.eqb_eq in Hn.
  now destruct (H n Hin).
Qed.

(** C3: right after [selectNote] of an id the snapshot contains, and right
    after a successful [refresh], the editor's title and content are those of
    the selected note and its tag string is that note's tags joined with a
    comma and a space; when a successful [refresh] leaves nothing selected
    the three editor fields are empty. *)
Theorem editor_follows_selection :
  (forall (Host : Type) (w : World) (h : Host) (i : Z),
      (exists n, In n (notes (state w)) /\ id n = i) ->
      let s' := state (after (selectNote i) w h) in
      selectedId s' = Some i /\
      exists n, selected s' = Some n /\ id n = i /\
                editTitle s' = title n /\ editContent s' = content n /\
                editTags s' = join (js ", ") (tags_or_empty n)) /\
  (forall (localeCompare : jsstring -> jsstring -> Z) (Host : Type)
          (handle : forall r : Request, Host -> Reply r * Host)
          (w : World) (h h' : Host) (found : list Note),
      handle (ListNotes (query (state w))) h = (Fulfilled found, h') ->
      let s' := state (after (refresh localeCompare handle) w h) in
      match selectedId s' with
      | Some i =>
          exists n, selected s' = Some n /\
                    editTitle s' = title n /\ editContent s' = content n /\
                    editTags s' = join (js ", ") (tags_or_empty n)
      | None => editTitle s' = [] /\ editContent s' = [] /\ editTags s' = []
      end).
Proof.
  split.
  - intros Host w h i Hin s'. unfold s', after, run.
    rewrite selectNote_run. simpl.
    destruct (find_has_id _ _ Hin) as [n [Hf [_ Hn]]].
    unfold editing, selected. rewrite Hf. simpl. rewrite Hf.
    split; [reflexivity|]. exists n. auto.
  - intros localeCompare Host handle w h h' found Hl s'. unfold s'.
    rewrite (after_refresh_fulfilled _ _ _ _ _ _ _ Hl). simpl.
    pose proof (settled_editor (sort (byRecency localeCompare) found) (state w)) as E.
    unfold selected.
    destruct (selectedId (settled _ (state w))); exact E.
Qed.

Lemma editor_follows_selection_witness :
  (exists n, In n (notes (state (loaded [groceries; standup])))
             /\ id n = 1) /\
  editTitle (state (after (selectNote 1)
                          (loaded [groceries; standup])
                          (service [groceries; standup] 3)))
  = js "Groceries" /\
  backend (ListNotes (query (state initialWorld))) (service [groceries; standup] 3)
  = (Fulfilled [groceries; standup], service [groceries; standup] 3) /\
  editTags (state (after (refresh codeUnitCompare backend) initialWorld
                         (service [groceries; standup] 3)))
  = js "work".
Proof.
  assert (Hin : exists n, In n (notes (state (loaded [groceries; standup])))
                          /\ id n = 1).
  { exists groceries. split; [right; left|]; reflexivity. }
  split; [exact Hin|]. split; [|split; [reflexivity|]].
  - destruct (proj1 editor_follows_selection Backend
                (loaded [groceries; standup])
                (service [groceries; standup] 3) 1 Hin) as [_ [n [Hsel [_ [Ht _]]]]].
    injection Hsel as <-. exact Ht.
  - pose proof (proj2 editor_follows_selection codeUnitCompare Backend backend
                  initialWorld (service [groceries; standup] 3) _ _ eq_refl) as E.
    simpl in E. destruct E as [n [Hsel [_ [_ Hg]]]].
    injection Hsel as <-. exact Hg.
Defined.

(** C10: [selectNote] of an id the snapshot does not contain sets the
    selection to that id and changes nothing else: the editor keeps the text
    it had, and no request is made. *)
Theorem selectNote_dangling
        (Host : Type) (w : World) (h : Host) (i : Z) :
  (forall n, In n (notes (state w)) -> id n <> i) ->
  run (selectNote i) w h =
    (Normal tt, mkRun (on_state (set_selectedId (Some i)) w) h []) /\
  let s := state w in
  let s' := state (after (selectNote i) w h) in
  selectedId s' = Some i /\
  editTitle s' = editTitle s /\ editContent s' = editContent s /\
  editTags s' = editTags s /\
  notes s' = notes s /\ loading s' = loading s /\ error s' = error s /\
  search s' = search s /\ activeTag s' = activeTag s /\
  saving (after (selectNote i) w h) = saving w /\
  deleting (after (selectNote i) w h) = deleting w.
Proof.
  intros Habsent. apply find_has_id_none in Habsent.
  assert (E : run (selectNote i) w h =
              (Normal tt, mkRun (on_state (set_selectedId (Some i)) w) h [])).
  { unfold run. rewrite selectNote_run. unfold on_state, editing. simpl.
    now rewrite Habsent. }
  split; [exact E|]. unfold after. rewrite E. simpl. repeat split.
Qed.

Lemma selectNote_dangling_witness :
  (forall n, In n (notes (state (loaded [groceries]))) ->
             id n <> 9) /\
  editTitle (state (after (selectNote 9) (loaded [groceries])
                          (service [groceries] 2)))
  = js "Groceries" /\
  selectedId (state (after (selectNote 9) (loaded [groceries])
                           (service [groceries] 2)))
  = Some 9.
Proof.
  assert (Habsent : forall n, In n (notes (state (loaded [groceries])))
                              -> id n <> 9).
  { intros n [<-|[]]. discriminate. }
  split; [exact Habsent|].
  destruct (selectNote_dangling Backend (loaded [groceries])
              (service [groceries] 2) 9 Habsent) as [_ [Hs [Ht _]]].
  split; [exact Ht | exact Hs].
Defined.

(** ** Visible notes *)

Lemma str_eqb_eq (a b : jsstring) : str_eqb a b = true <-> a = b.
Proof.
  unfold str_eqb. destruct (list_eq_dec N.eq_dec a b); split; congruence.
Qed.

Lemma includes_In (l : list jsstring) (t : jsstring) :
  includes l t = true <-> In t l.
Proof.
  unfold includes. rewrite existsb_exists. split.
  - intros [x [Hin Hx]]. apply str_eqb_eq in Hx. now subst.
  - intros Hin. exists t. split; [assumption | now apply str_eqb_eq].
Qed.

(** C6 (as amended): [filteredNotes] is the snapshot itself when no active
    tag is set or the active tag is the empty string; for any other active
    tag it is the snapshot filtered, in snapshot order, to the notes whose
    tags contain that tag. *)
Theorem filteredNotes_by_active_tag (s : UIState) :
  (activeTag s = None \/ activeTag s = Some [] -> filteredNotes s = notes s) /\
  (forall t, activeTag s = Some t -> t <> [] ->
             filteredNotes s =
               filter (fun n => includes (tags_or_empty n) t) (notes s) /\
             (forall n, In n (filteredNotes s) <->
                        In n (notes s) /\ In t (tags_or_empty n))).
Proof.
  unfold filteredNotes. split.
  - intros [->| ->]; reflexivity.
  - intros t -> Ht. destruct t as [|c t]; [contradiction|]. simpl.
    split; [reflexivity|]. intros n. rewrite filter_In.
    now rewrite includes_In.
Qed.

Lemma filteredNotes_by_active_tag_witness :
  filteredNotes (state (loaded [groceries; standup])) = [standup; groceries] /\
  filteredNotes (set_activeTag (Some []) (state (loaded [groceries; standup])))
  = [standup; groceries] /\
  filteredNotes (set_activeTag (Some (js "work"))
                               (state (loaded [groceries; standup])))
  = [standup].
Proof.
  assert (Hw : js "work" <> []) by discriminate.
  split; [|split].
  - exact (proj1 (filteredNotes_by_active_tag (state (loaded [groceries; standup])))
                 (or_introl eq_refl)).
  - exact (proj1 (filteredNotes_by_active_tag
                    (set_activeTag (Some []) (state (loaded [groceries; standup]))))
                 (or_intror eq_refl)).
  - exact (proj1 (proj2 (filteredNotes_by_active_tag
                           (set_activeTag (Some (js "work"))
                              (state (loaded [groceries; standup]))))
                        (js "work") eq_refl Hw)).
Defined.

(** C6 as worded fails for the empty active tag: the snapshot is returned
    whole, not the notes that carry the empty tag. *)
Lemma filteredNotes_empty_active_tag :
  let s := state (after (onTagClick (Some [])) (loaded [groceries; imported])
                        (service [groceries; imported] 5)) in
  activeTag s = Some [] /\
  filteredNotes s = [imported; groceries] /\
  visibleNotes_spec (notes s) (activeTag s) = [imported] /\
  filteredNotes s <> visibleNotes_spec (notes s) (activeTag s).
Proof.
  split; [reflexivity|]. split; [reflexivity|]. split; [reflexivity|].
  discriminate.
Qed.

(** ** Tag parsing *)

Lemma split_nonempty (sep : N) (s : jsstring) : split sep s <> [].
Proof.
  destruct s as [|c r]; simpl; [discriminate|].
  destruct (c =? sep)%N; [discriminate|].
  destruct (split sep r); discriminate.
Qed.

(** Joining the pieces with the separator gives the string back. *)
Lemma join_split (sep : N) (s : jsstring) : join [sep] (split sep s) = s.
Proof.
  induction s as [|c r IH]; [reflexivity|]. simpl split.
  destruct (N.eqb_spec c sep) as [->|Hc].
  - pose proof (split_nonempty sep r) as Hne.
    destruct (split sep r) as [|p ps]; [contradiction|].
    simpl in *. now rewrite IH.
  - pose proof (split_nonempty sep r) as Hne.
    destruct (split sep r) as [|p ps]; [contradiction|].
    destruct ps as [|p' ps]; simpl in *; now rewrite <- IH.
Qed.

(** No piece contains the separator. *)
Lemma split_pieces (sep : N) (s : jsstring) :
  Forall (fun p => ~ In sep p) (split sep s).
Proof.
  induction s as [|c r IH]; simpl.
  - constructor; [intros [] | constructor].
  - destruct (N.eqb_spec c sep) as [->|Hc].
    + constructor; [intros [] | assumption].
    + destruct (split sep r) as [|p ps]; [repeat constructor; intros [?|[]]; congruence|].
      inversion IH; subst. constructor; [|assumption].
      intros [?|?]; [congruence | contradiction].
Qed.

Lemma trimStart_spec (s : jsstring) :
  exists a, s = a ++ trimStart s /\ forallb isWhiteSpace a = true /\
            match trimStart s with
            | c :: _ => isWhiteSpace c = false
            | [] => True
            end.
Proof.
  induction s as [|c r [a [E [Ha Hh]]]]; simpl.
  - exists []. auto.
  - destruct (isWhiteSpace c) eqn:W.
    + exists (c :: a). simpl. rewrite W, Ha. repeat split; [congruence | exact Hh].
    + exists []. simpl. auto.
Qed.

(** [trim] removes a run of white space at each end and leaves a string
    that neither starts nor ends with white space. *)
Lemma trim_spec (s : jsstring) :
  exists a b,
    s = a ++ trim s ++ b /\
    forallb isWhiteSpace a = true /\ forallb isWhiteSpace b = true /\
    match trim s with
    | c :: _ => isWhiteSpace c = false
    | [] => True
    end /\
    match rev (trim s) with
    | c :: _ => isWhiteSpace c = false
    | [] => True
    end.
Proof.
  unfold trim, trimEnd.
  destruct (trimStart_spec s) as [a [Ea [Ha Hh]]].
  destruct (trimStart_spec (rev (trimStart s))) as [b [Eb [Hb Ht]]].
  set (m := trimStart (rev (trimStart s))) in *.
  assert (Em : trimStart s = rev m ++ rev b).
  { rewrite <- rev_app_distr, <- Eb. now rewrite rev_involutive. }
  exists a, (rev b). repeat split.
  - now rewrite <- Em.
  - exact Ha.
  - rewrite forallb_forall in *. intros x Hx. apply Hb. now apply in_rev.
  - rewrite Em in Hh. destruct (rev m); [exact I | exact Hh].
  - now rewrite rev_involutive.
Qed.

Lemma trim_idempotent_on_result (s : jsstring) : trim (trim s) = trim s.
Proof.
  destruct (trim_spec s) as [_ [_ [_ [_ [_ [Hh Ht]]]]]].
  set (t := trim s) in *. unfold trim, trimEnd.
  assert (E1 : trimStart t = t).
  { destruct t as [|c r]; [reflexivity|]. simpl. now rewrite Hh. }
  rewrite E1.
  assert (E2 : trimStart (rev t) = rev t).
  { destruct (rev t) as [|c r]; [reflexivity|]. simpl. now rewrite Ht. }
  rewrite E2. apply rev_involutive.
Qed.

Lemma parseTags_clean (s : jsstring) :
  Forall (fun t => t <> [] /\ trim t = t /\ ~ In comma t) (parseTags s).
Proof.
  unfold parseTags. apply Forall_forall. intros t Ht.
  apply filter_In in Ht. destruct Ht as [Hin Hne].
  apply in_map_iff in Hin. destruct Hin as [p [<- Hp]].
  split; [now destruct (trim p)|]. split; [apply trim_idempotent_on_result|].
  pose proof (split_pieces comma s) as Hc. rewrite Forall_forall in Hc.
  intros Hin. apply (Hc p Hp).
  destruct (trim_spec p) as [a [b [E _]]]. rewrite E.
  apply in_or_app. right. apply in_or_app. now left.
Qed.

(** C5: with a note selected, [onSave] first submits an update of that note
    whose tags are the editor's tag string split on commas, each piece
    trimmed of white space, empty pieces dropped; for the buffer
    ["a, b ,, c"] these are ["a"], ["b"], ["c"]. *)
Theorem onSave_submits_parsed_tags
        (localeCompare : jsstring -> jsstring -> Z) (Host : Type)
        (handle : forall r : Request, Host -> Reply r * Host)
        (w : World) (h : Host) (i : Z) :
  selectedId (state w) = Some i ->
  let buffer := editTags (state w) in
  let submitted :=
    filter (fun p => negb (str_eqb p [])) (map trim (split comma buffer)) in
  (exists rest,
      events (onSave localeCompare handle) w h =
        mkEvent (UpdateNote i (mkData (editTitle (state w)) (editContent (state w))
                                      submitted))
                (set_saving true w) :: rest) /\
  join [comma] (split comma buffer) = buffer /\
  Forall (fun p => ~ In comma p) (split comma buffer) /\
  Forall (fun t => t <> [] /\ trim t = t /\ ~ In comma t) submitted /\
  parseTags (js "a, b ,, c") = [js "a"; js "b"; js "c"].
Proof.
  intros Hs buffer submitted.
  assert (Hp : submitted = parseTags buffer).
  { unfold submitted, parseTags. apply filter_ext. now intros [|c r]. }
  rewrite Hp. split; [|split; [|split; [|split]]].
  - fold (draft (state w)). unfold events, run.
    destruct (handle (UpdateNote i (draft (state w))) h) as [[n|e] h1] eqn:Hu.
    + rewrite (onSave_fulfilled _ _ _ (mkRun w h []) i n h1 Hs Hu). simpl.
      match goal with |- context [refresh _ _ ?r] =>
        destruct (refresh_completes localeCompare _ handle r) as [w' [h' ->]] end.
      simpl. eauto.
    + rewrite (onSave_rejected _ _ _ (mkRun w h []) i e h1 Hs Hu). simpl. eauto.
  - apply join_split.
  - apply split_pieces.
  - apply parseTags_clean.
  - reflexivity.
Qed.

Lemma onSave_submits_parsed_tags_witness :
  let typed := after (onTagsInput (js "a, b ,, c")) (loaded [groceries])
                     (service [groceries] 2) in
  selectedId (state typed) = Some 1 /\
  hd_error (map asked (events (onSave codeUnitCompare backend) typed
                              (service [groceries] 2)))
  = Some (UpdateNote 1 (mkData (js "Groceries") (js "milk, eggs")
                               [js "a"; js "b"; js "c"])).
Proof.
  intros typed. split; [reflexivity|].
  destruct (proj1 (onSave_submits_parsed_tags codeUnitCompare Backend backend
                     typed (service [groceries] 2) 1 eq_refl)) as [rest ->].
  reflexivity.
Defined.

(** ** Failing remote calls *)

Section Failures.

Variable localeCompare : jsstring -> jsstring -> Z.
Variable Host : Type.
Variable handle : forall r : Request, Host -> Reply r * Host.



End Failures.



(** ** Creating and deleting *)

Lemma editing_frame (i : Z) (s : UIState) :
  notes (editing i s) = notes s /\ selectedId (editing i s) = Some i /\
  error (editing i s) = error s /\ loading (editing i s) = loading s.
Proof. unfold editing. now destruct (find _ _). Qed.

Lemma editing_found (i : Z) (s : UIState) (n : Note) :
  find (has_id i) (notes s) = Some n ->
  selected (editing i s) = Some n /\
  editTitle (editing i s) = title n /\ editContent (editing i s) = content n /\
  editTags (editing i s) = join (js ", ") (tags_or_empty n).
Proof.
  intros Hf. unfold editing, selected. rewrite Hf. simpl. now rewrite Hf.
Qed.

(** C7 (as amended): [onCreate] submits a create request with the fixed
    defaults (title ["Untitled"], empty content, no tags).  When that request
    and the listing of the full refresh that follows are fulfilled, the
    snapshot is the sorted listing, the selection is the created note's id
    and, if the snapshot contains that id, the editor is reloaded from the
    snapshot's note of that id.  In particular, when the listing is the
    created note alone (the service held no other note), the snapshot holds
    exactly that note, it is selected, and the editor holds its fields. *)
Theorem onCreate_refreshes_and_selects
        (localeCompare : jsstring -> jsstring -> Z) (Host : Type)
        (handle : forall r : Request, Host -> Reply r * Host)
        (w : World) (h h1 h2 : Host) (created : Note) (found : list Note) :
  handle (CreateNote (mkData (js "Untitled") [] [])) h = (Fulfilled created, h1) ->
  handle (ListNotes (query (state w))) h1 = (Fulfilled found, h2) ->
  let w' := after (onCreate localeCompare handle) w h in
  let snapshot := sort (byRecency localeCompare) found in
  map asked (events (onCreate localeCompare handle) w h)
  = [CreateNote (mkData (js "Untitled") [] []); ListNotes (query (state w))] /\
  notes (state w') = snapshot /\
  selectedId (state w') = Some (id created) /\
  error (state w') = None /\ loading (state w') = false /\ saving w' = false /\
  (forall n, find (has_id (id created)) snapshot = Some n ->
             selected (state w') = Some n /\
             editTitle (state w') = title n /\ editContent (state w') = content n /\
             editTags (state w') = join (js ", ") (tags_or_empty n)) /\
  (found = [created] ->
   notes (state w') = [created] /\ selected (state w') = Some created /\
   editTitle (state w') = title created /\
   editContent (state w') = content created /\
   editTags (state w') = join (js ", ") (tags_or_empty created)).
Proof.
  intros Hc Hl w' snapshot.
  assert (E : run (onCreate localeCompare handle) w h =
              (Normal tt,
               mkRun (set_saving false
                        (on_state (editing (id created))
                           (on_state (settled snapshot) (set_saving true w))))
                     h2
                     [mkEvent (CreateNote blank) (set_saving true w);
                      mkEvent (ListNotes (query (state w)))
                              (pending (set_saving true w))])).
  { unfold run. rewrite (onCreate_fulfilled _ _ _ (mkRun w h []) created h1 Hc).
    erewrite refresh_fulfilled by exact Hl. reflexivity. }
  assert (Hfound : forall n, find (has_id (id created)) snapshot = Some n ->
             selected (state w') = Some n /\
             editTitle (state w') = title n /\ editContent (state w') = content n /\
             editTags (state w') = join (js ", ") (tags_or_empty n)).
  { intros n Hf. unfold w', after. rewrite E. simpl.
    apply editing_found. now rewrite settled_notes. }
  unfold w', events, after in *. rewrite E in *. simpl in *.
  destruct (editing_frame (id created) (settled snapshot (state w)))
    as [Hn [Hs [He Hld]]].
  rewrite Hn, Hs, He, Hld, settled_notes, settled_error.
  assert (Hone : found = [created] ->
                 find (has_id (id created)) snapshot = Some created).
  { intros ->. simpl. now rewrite has_id_self. }
  split; [reflexivity|]. split; [reflexivity|]. split; [reflexivity|].
  split; [reflexivity|]. split; [apply settled_loading|]. split; [reflexivity|].
  split; [exact Hfound|].
  intros Hf. split; [now subst found | exact (Hfound _ (Hone Hf))].
Qed.

Lemma onCreate_refreshes_and_selects_witness :
  let w' := after (onCreate codeUnitCompare backend) initialWorld (service [] 1) in
  (exists created,
      backend (CreateNote (mkData (js "Untitled") [] [])) (service [] 1)
      = (Fulfilled created, service [created] 2) /\
      backend (ListNotes (query (state initialWorld))) (service [created] 2)
      = (Fulfilled [created], service [created] 2)) /\
  map id (notes (state w')) = [1] /\
  selectedId (state w') = Some 1 /\
  editTitle (state w') = js "Untitled" /\
  editContent (state w') = [] /\
  editTags (state w') = [].
Proof.
  intros w'. split; [eexists; split; reflexivity|].
  destruct (onCreate_refreshes_and_selects codeUnitCompare Backend backend
              initialWorld (service [] 1) _ _ _ _ eq_refl eq_refl)
    as [_ [_ [Hsel [_ [_ [_ [Hfound Hone]]]]]]].
  destruct (Hone eq_refl) as [Hn _].
  destruct (Hfound _ eq_refl) as [_ [Ht [Hc Hg]]].
  unfold w'. rewrite Hn, Hsel, Ht, Hc, Hg. repeat split.
Defined.

(** C7 as worded fails: an empty snapshot does not make the created note
    the only one.  After a startup refresh that failed, the snapshot is empty
    while the service holds a note; [onCreate] then leaves two notes in the
    snapshot. *)
Lemma onCreate_from_empty_snapshot_two_notes :
  let b := flaky [Some (http500 "Failed to list notes")] [groceries] 2 in
  let w := after (refresh codeUnitCompare backend) initialWorld b in
  let b' := host_after (run (refresh codeUnitCompare backend) initialWorld b) in
  notes (state w) = [] /\
  map id (notes (state (after (onCreate codeUnitCompare backend) w b'))) = [2; 1] /\
  selectedId (state (after (onCreate codeUnitCompare backend) w b')) = Some 2.
Proof. repeat split. Qed.

(** C8 (as amended): [onDelete] does nothing, and asks nothing, when no note
    is selected.  With a note selected it first asks for confirmation and
    does nothing more when the answer is no.  On confirmation it issues the
    remote delete and, once that is fulfilled, clears the selection and the
    editor and then refreshes.  In particular, when the listing of that
    refresh is empty (the service held no other note), nothing is selected
    and the snapshot is empty afterwards. *)
Theorem onDelete_confirms_then_deletes
        (localeCompare : jsstring -> jsstring -> Z) (Host : Type)
        (handle : forall r : Request, Host -> Reply r * Host)
        (w : World) (h : Host) :
  (selectedId (state w) = None ->
   run (onDelete localeCompare handle) w h = (Normal tt, mkRun w h [])) /\
  (forall i h1,
      selectedId (state w) = Some i ->
      handle (Confirm (js "Delete this note?")) h = (false, h1) ->
      run (onDelete localeCompare handle) w h
      = (Normal tt, mkRun w h1 [mkEvent (Confirm (js "Delete this note?")) w])) /\
  (forall i h1 h2 h3 found,
      selectedId (state w) = Some i ->
      handle (Confirm (js "Delete this note?")) h = (true, h1) ->
      handle (DeleteNote i) h1 = (Fulfilled tt, h2) ->
      handle (ListNotes (query (state w))) h2 = (Fulfilled found, h3) ->
      let w' := after (onDelete localeCompare handle) w h in
      events (onDelete localeCompare handle) w h
      = [mkEvent (Confirm (js "Delete this note?")) w;
         mkEvent (DeleteNote i) (set_deleting true w);
         mkEvent (ListNotes (query (state w)))
                 (pending (set_deleting true (on_state cleared w)))] /\
      w' = set_deleting false
             (on_state (settled (sort (byRecency localeCompare) found))
                       (on_state cleared w)) /\
      notes (state w') = sort (byRecency localeCompare) found /\
      (found = [] ->
       notes (state w') = [] /\ selectedId (state w') = None /\
       editTitle (state w') = [] /\ editContent (state w') = [] /\
       editTags (state w') = [])).
Proof.
  split; [|split].
  - intros Hs. unfold run. now rewrite onDelete_unselected.
  - intros i h1 Hs Hp. unfold run.
    now rewrite (onDelete_declined _ _ _ (mkRun w h []) i h1 Hs Hp).
  - intros i h1 h2 h3 found Hs Hp Hd Hl w'.
    assert (E : run (onDelete localeCompare handle) w h =
                (Normal tt,
                 mkRun (set_deleting false
                          (on_state (settled (sort (byRecency localeCompare) found))
                                    (on_state cleared w)))
                       h3
                       [mkEvent prompt w;
                        mkEvent (DeleteNote i) (set_deleting true w);
                        mkEvent (ListNotes (query (state w)))
                                (pending (set_deleting true (on_state cleared w)))])).
    { unfold run.
      rewrite (onDelete_fulfilled _ _ _ (mkRun w h []) i h1 h2 Hs Hp Hd).
      erewrite refresh_fulfilled by exact Hl. reflexivity. }
    unfold w', events, after. rewrite E. simpl.
    split; [reflexivity|]. split; [reflexivity|].
    split; [apply settled_notes|].
    intros ->. simpl. repeat split.
Qed.

Lemma onDelete_confirms_then_deletes_witness :
  run (onDelete codeUnitCompare backend) initialWorld (service [groceries] 2)
  = (Normal tt, mkRun initialWorld (service [groceries] 2) []) /\
  map asked (events (onDelete codeUnitCompare backend) (loaded [groceries])
                    (declining (service [groceries] 2)))
  = [Confirm (js "Delete this note?")] /\
  after (onDelete codeUnitCompare backend) (loaded [groceries])
        (declining (service [groceries] 2)) = loaded [groceries] /\
  map asked (events (onDelete codeUnitCompare backend) (loaded [groceries])
                    (service [groceries] 2))
  = [Confirm (js "Delete this note?"); DeleteNote 1; ListNotes None] /\
  notes (state (after (onDelete codeUnitCompare backend) (loaded [groceries])
                      (service [groceries] 2))) = [] /\
  selectedId (state (after (onDelete codeUnitCompare backend) (loaded [groceries])
                           (service [groceries] 2))) = None.
Proof.
  split; [|split; [|split; [|split]]].
  - exact (proj1 (onDelete_confirms_then_deletes codeUnitCompare Backend backend
                    initialWorld (service [groceries] 2)) eq_refl).
  - unfold events.
    rewrite (proj1 (proj2 (onDelete_confirms_then_deletes codeUnitCompare Backend
                             backend (loaded [groceries])
                             (declining (service [groceries] 2))))
                   1 _ eq_refl eq_refl).
    reflexivity.
  - unfold after.
    rewrite (proj1 (proj2 (onDelete_confirms_then_deletes codeUnitCompare Backend
                             backend (loaded [groceries])
                             (declining (service [groceries] 2))))
                   1 _ eq_refl eq_refl).
    reflexivity.
  - destruct (proj2 (proj2 (onDelete_confirms_then_deletes codeUnitCompare Backend
                backend (loaded [groceries]) (service [groceries] 2)))
                1 _ _ _ [] eq_refl eq_refl eq_refl eq_refl) as [He _].
    rewrite He. reflexivity.
  - destruct (proj2 (proj2 (onDelete_confirms_then_deletes codeUnitCompare Backend
                backend (loaded [groceries]) (service [groceries] 2)))
                1 _ _ _ [] eq_refl eq_refl eq_refl eq_refl) as [_ [_ [_ Hempty]]].
    destruct (Hempty eq_refl) as [Hn [Hs _]]. split; [exact Hn | exact Hs].
Defined.

(** C8 as worded fails: deleting the only note of the snapshot need not
    empty it.  After a search for ["Groceries"] the snapshot holds that note
    alone; the user clears the search box and deletes the note; the refresh
    then lists the service's other note, which becomes the selection. *)
Lemma onDelete_only_snapshot_note_leaves_another :
  let b := service [groceries; standup] 3 in
  let typed := after (onSearchInput (js "Groceries")) initialWorld b in
  let searched := after (onSearch codeUnitCompare backend) typed b in
  let w := after (onSearchInput []) searched b in
  notes (state w) = [groceries] /\ selectedId (state w) = Some 1 /\
  notes (state (after (onDelete codeUnitCompare backend) w b)) = [standup] /\
  selectedId (state (after (onDelete codeUnitCompare backend) w b)) = Some 2.
Proof. repeat split. Qed.

(** ** The error field *)

Section ErrorField.

Variable localeCompare : jsstring -> jsstring -> Z.
Variable Host : Type.
Variable handle : forall r : Request, Host -> Reply r * Host.

(** The store a refresh leaves does not depend on earlier interactions. *)
Lemma refresh_world (c : Run Host) :
  world (snd (refresh localeCompare handle c)) =
  after (refresh localeCompare handle) (world c) (host c).
Proof.
  unfold after, run.
  destruct (handle (ListNotes (query (state (world c)))) (host c))
    as [[found|e] h'] eqn:Hl.
  - rewrite (refresh_fulfilled _ _ _ c found h' Hl).
    erewrite (refresh_fulfilled _ _ _ (mkRun (world c) (host c) [])) by exact Hl.
    reflexivity.
  - rewrite (refresh_rejected _ _ _ c e h' Hl).
    erewrite (refresh_rejected _ _ _ (mkRun (world c) (host c) [])) by exact Hl.
    reflexivity.
Qed.

(** C9 (as amended): at the completion of a handler, the error field is
    the one before when the handler made no remote call ([selectNote],
    [onTagClick], [onSave] and [onDelete] without selection, a declined
    [onDelete]); it is none after a refresh whose listing was fulfilled;
    and it is the message of the rejected call otherwise ([onCreate],
    [onSave] and [onDelete] end with the error field of their refresh when
    their own call was fulfilled).  While the listing of a refresh is
    pending the field is none: [refresh] clears it when it starts. *)
Theorem error_field_after_handlers (w : World) (h : Host) :
  (forall i, error (state (after (selectNote i) w h)) = error (state w)) /\
  (forall t, error (state (after (onTagClick t) w h)) = error (state w)) /\
  (selectedId (state w) = None ->
   error (state (after (onSave localeCompare handle) w h)) = error (state w) /\
   error (state (after (onDelete localeCompare handle) w h)) = error (state w)) /\
  (forall i h1,
      selectedId (state w) = Some i -> handle prompt h = (false, h1) ->
      error (state (after (onDelete localeCompare handle) w h)) = error (state w)) /\
  (forall found h1,
      handle (ListNotes (query (state w))) h = (Fulfilled found, h1) ->
      error (state (after (refresh localeCompare handle) w h)) = None) /\
  (forall e h1,
      handle (ListNotes (query (state w))) h = (Rejected e, h1) ->
      error (state (after (refresh localeCompare handle) w h))
      = Some (message_or e (js "Unknown error"))) /\
  (events (refresh localeCompare handle) w h
   = [mkEvent (ListNotes (query (state w))) (pending w)] /\
   error (state (pending w)) = None) /\
  (forall e h1,
      handle (CreateNote blank) h = (Rejected e, h1) ->
      error (state (after (onCreate localeCompare handle) w h))
      = Some (message_or e (js "Failed to create note"))) /\
  (forall n h1,
      handle (CreateNote blank) h = (Fulfilled n, h1) ->
      error (state (after (onCreate localeCompare handle) w h))
      = error (state (after (refresh localeCompare handle) (set_saving true w) h1))) /\
  (forall i e h1,
      selectedId (state w) = Some i ->
      handle (UpdateNote i (draft (state w))) h = (Rejected e, h1) ->
      error (state (after (onSave localeCompare handle) w h))
      = Some (message_or e (js "Failed to save note"))) /\
  (forall i n h1,
      selectedId (state w) = Some i ->
      handle (UpdateNote i (draft (state w))) h = (Fulfilled n, h1) ->
      error (state (after (onSave localeCompare handle) w h))
      = error (state (after (refresh localeCompare handle) (set_saving true w) h1))) /\
  (forall i e h1 h2,
      selectedId (state w) = Some i -> handle prompt h = (true, h1) ->
      handle (DeleteNote i) h1 = (Rejected e, h2) ->
      error (state (after (onDelete localeCompare handle) w h))
      = Some (message_or e (js "Failed to delete note"))) /\
  (forall i h1 h2,
      selectedId (state w) = Some i -> handle prompt h = (true, h1) ->
      handle (DeleteNote i) h1 = (Fulfilled tt, h2) ->
      error (state (after (onDelete localeCompare handle) w h))
      = error (state (after (refresh localeCompare handle)
                            (set_deleting true (on_state cleared w)) h2))).
Proof.
  split; [|split; [|split; [|split; [|split; [|split; [|split; [|split;
    [|split; [|split; [|split; [|split]]]]]]]]]]].
  - intros i. unfold after, run. rewrite selectNote_run. simpl.
    apply editing_frame.
  - reflexivity.
  - intros Hs. unfold after, run.
    now rewrite onSave_unselected, onDelete_unselected.
  - intros i h1 Hs Hp. unfold after, run.
    now rewrite (onDelete_declined _ _ _ (mkRun w h []) i h1 Hs Hp).
  - intros found h1 Hl. rewrite (after_refresh_fulfilled _ _ _ _ _ _ _ Hl).
    apply settled_error.
  - intros e h1 Hl. now rewrite (after_refresh_rejected _ _ _ _ _ _ _ Hl).
  - split; [|reflexivity]. unfold events, run.
    now destruct (refresh_completes localeCompare _ handle (mkRun w h []))
      as [w' [h' ->]].
  - intros e h1 Hc. unfold after, run.
    now rewrite (onCreate_rejected _ _ _ (mkRun w h []) e h1 Hc).
  - intros n h1 Hc. unfold after at 1, run.
    rewrite (onCreate_fulfilled _ _ _ (mkRun w h []) n h1 Hc).
    cbv zeta. cbn [snd world state set_saving on_state].
    rewrite refresh_world. apply editing_frame.
  - intros i e h1 Hs Hu. unfold after, run.
    now rewrite (onSave_rejected _ _ _ (mkRun w h []) i e h1 Hs Hu).
  - intros i n h1 Hs Hu. unfold after at 1, run.
    rewrite (onSave_fulfilled _ _ _ (mkRun w h []) i n h1 Hs Hu).
    cbv zeta. cbn [snd world state set_saving].
    now rewrite refresh_world.
  - intros i e h1 h2 Hs Hp Hd. unfold after, run.
    now rewrite (onDelete_rejected _ _ _ (mkRun w h []) i e h1 h2 Hs Hp Hd).
  - intros i h1 h2 Hs Hp Hd. unfold after at 1, run.
    rewrite (onDelete_fulfilled _ _ _ (mkRun w h []) i h1 h2 Hs Hp Hd).
    cbv zeta. cbn [snd world state set_deleting].
    now rewrite refresh_world.
Qed.

End ErrorField.

Lemma error_field_after_handlers_witness :
  let w := on_state (set_error (Some (js "Failed to save note"))) (loaded [groceries]) in
  let blankw := on_state (set_error (Some (js "Failed to list notes: 500")))
                         initialWorld in
  let once e := flaky [Some (http500 e)] [groceries] 2 in
  let err t b := error (state (after t w b)) in
  error (state (after (onSave codeUnitCompare backend) blankw (service [] 1)))
  = Some (js "Failed to list notes: 500") /\
  err (onDelete codeUnitCompare backend) (declining (service [groceries] 2))
  = Some (js "Failed to save note") /\
  err (refresh codeUnitCompare backend) (service [groceries] 2) = None /\
  err (refresh codeUnitCompare backend) (once "Failed to list notes"%string)
  = Some (js "Failed to list notes: 500") /\
  err (onCreate codeUnitCompare backend) (once "Failed to create note"%string)
  = Some (js "Failed to create note: 500") /\
  err (onCreate codeUnitCompare backend) (service [groceries] 2) = None /\
  err (onSave codeUnitCompare backend) (once "Failed to update note"%string)
  = Some (js "Failed to update note: 500") /\
  err (onSave codeUnitCompare backend) (service [groceries] 2) = None /\
  err (onDelete codeUnitCompare backend) (once "Failed to delete note"%string)
  = Some (js "Failed to delete note: 500") /\
  err (onDelete codeUnitCompare backend) (service [groceries] 2) = None.
Proof.
  intros w blankw once err. unfold err.
  pose proof (error_field_after_handlers codeUnitCompare Backend backend w) as K.
  split; [|split; [|split; [|split; [|split; [|split; [|split; [|split; [|split]]]]]]]].
  - destruct (error_field_after_handlers codeUnitCompare Backend backend blankw
                (service [] 1)) as [_ [_ [H _]]].
    exact (proj1 (H eq_refl)).
  - destruct (K (declining (service [groceries] 2))) as [_ [_ [_ [H _]]]].
    exact (H 1 _ eq_refl eq_refl).
  - destruct (K (service [groceries] 2)) as [_ [_ [_ [_ [H _]]]]].
    exact (H _ _ eq_refl).
  - destruct (K (once "Failed to list notes"%string)) as [_ [_ [_ [_ [_ [H _]]]]]].
    exact (H _ _ eq_refl).
  - destruct (K (once "Failed to create note"%string)) as [_ [_ [_ [_ [_ [_ [_ [H _]]]]]]]].
    exact (H _ _ eq_refl).
  - destruct (K (service [groceries] 2)) as [_ [_ [_ [_ [_ [_ [_ [_ [H _]]]]]]]]].
    rewrite (H _ _ eq_refl). reflexivity.
  - destruct (K (once "Failed to update note"%string))
      as [_ [_ [_ [_ [_ [_ [_ [_ [_ [H _]]]]]]]]]].
    exact (H 1 _ _ eq_refl eq_refl).
  - destruct (K (service [groceries] 2))
      as [_ [_ [_ [_ [_ [_ [_ [_ [_ [_ [H _]]]]]]]]]]].
    rewrite (H 1 _ _ eq_refl eq_refl). reflexivity.
  - destruct (K (once "Failed to delete note"%string))
      as [_ [_ [_ [_ [_ [_ [_ [_ [_ [_ [_ [H _]]]]]]]]]]]].
    exact (H 1 _ _ _ eq_refl eq_refl eq_refl).
  - destruct (K (service [groceries] 2))
      as [_ [_ [_ [_ [_ [_ [_ [_ [_ [_ [_ [_ H]]]]]]]]]]]].
    rewrite (H 1 _ _ eq_refl eq_refl eq_refl). reflexivity.
Defined.

(** C9 as worded fails at the points the display observes during a
    refresh: the message left by a failed save is gone while the listing is
    pending, although no handler has succeeded since, and the refresh itself
    then fails. *)
Lemma refresh_clears_error_before_outcome :
  let b := flaky [Some (http500 "Failed to update note");
                  Some (http500 "Failed to list notes")] [groceries] 2 in
  let w0 := loaded [groceries] in
  let w1 := after (onSave codeUnitCompare backend) w0 b in
  let b1 := host_after (run (onSave codeUnitCompare backend) w0 b) in
  error (state w1) = Some (js "Failed to update note: 500") /\
  map (fun ev => error (state (shown ev)))
      (events (refresh codeUnitCompare backend) w1 b1) = [None] /\
  error (state (after (refresh codeUnitCompare backend) w1 b1))
  = Some (js "Failed to list notes: 500").
Proof. repeat split. Qed.

(** * Further properties of the component *)

(** ** The sidebar's tag list *)

Lemma set_add_In (all : list jsstring) (x t : jsstring) :
  In t (set_add all x) <-> In t all \/ t = x.
Proof.
  unfold set_add. destruct (includes all x) eqn:E.
  - apply includes_In in E. split; [auto|]. intros [H| ->]; assumption.
  - rewrite in_app_iff. simpl.
    split; [intros [H|[<-|[]]]; auto | intros [H| ->]; auto].
Qed.

Lemma set_add_NoDup (all : list jsstring) (x : jsstring) :
  NoDup all -> NoDup (set_add all x).
Proof.
  intros H. unfold set_add. destruct (includes all x) eqn:E; [assumption|].
  apply NoDup_app; [assumption | repeat constructor; intros [] |].
  intros a Ha [<-|[]].
  apply includes_In in Ha. congruence.
Qed.

Lemma fold_set_add (ts all : list jsstring) :
  (forall t, In t (fold_left set_add ts all) <-> In t all \/ In t ts) /\
  (NoDup all -> NoDup (fold_left set_add ts all)).
Proof.
  revert all. induction ts as [|x ts IH]; intros all; simpl.
  - split; [intros t; tauto | auto].
  - destruct (IH (set_add all x)) as [Hin Hnd]. split.
    + intros t. rewrite Hin, set_add_In. split; intros H.
      * destruct H as [[H|H]|H]; auto.
      * destruct H as [H|[H|H]]; auto.
    + intros H. apply Hnd. now apply set_add_NoDup.
Qed.

Lemma collect_from (l : list Note) (acc : list jsstring) :
  (forall t,
      In t (fold_left (fun all n => fold_left set_add (tags_or_empty n) all) l acc)
      <-> In t acc \/ exists n, In n l /\ In t (tags_or_empty n)) /\
  (NoDup acc ->
   NoDup (fold_left (fun all n => fold_left set_add (tags_or_empty n) all) l acc)).
Proof.
  revert acc. induction l as [|n l IH]; intros acc; simpl.
  - split; [|auto]. intros t. split; [auto|].
    intros [H|[n [[] _]]]. assumption.
  - destruct (IH (fold_left set_add (tags_or_empty n) acc)) as [Hin Hnd].
    destruct (fold_set_add (tags_or_empty n) acc) as [Hin' Hnd']. split.
    + intros t. rewrite Hin, Hin'. split.
      * intros [[H|H]|[m [Hm Ht]]]; eauto.
      * intros [H|[m [[<-|Hm] Ht]]]; eauto.
    + intros H. apply Hnd, Hnd', H.
Qed.

Lemma collected_tags (localeCompare : jsstring -> jsstring -> Z) (s : UIState) :
  (forall t, In t (sidebarTags localeCompare s) <->
             exists n, In n (notes s) /\ In t (tags_or_empty n)) /\
  NoDup (sidebarTags localeCompare s).
Proof.
  unfold sidebarTags, collectTags.
  destruct (collect_from (notes s) []) as [Hin Hnd]. split.
  - intros t. split.
    + intros H. apply (Permutation_in _ (Permutation_sym (sort_perm _ _))) in H.
      apply Hin in H. destruct H as [[]|H]. exact H.
    + intros H. apply (Permutation_in _ (sort_perm _ _)). apply Hin. now right.
  - apply (Permutation_NoDup (sort_perm _ _)). apply Hnd. constructor.
Qed.

(** X1: the sidebar lists exactly the tags that some note of the snapshot
    carries, each of them once. *)
Theorem sidebarTags_universe
        (localeCompare : jsstring -> jsstring -> Z) (s : UIState) :
  (forall t, In t (sidebarTags localeCompare s) <->
             exists n, In n (notes s) /\ In t (tags_or_empty n)) /\
  NoDup (sidebarTags localeCompare s).
Proof. exact (collected_tags localeCompare s). Qed.

Section TagOrder.

Variable localeCompare : jsstring -> jsstring -> Z.
Hypothesis lc_sgn :
  forall a b, Z.sgn (localeCompare a b) = - Z.sgn (localeCompare b a).
Hypothesis lc_trans :
  forall a b c, localeCompare a b <= 0 -> localeCompare b c <= 0 ->
                localeCompare a c <= 0.

(** X2: under a consistent collation the sidebar's tags are in ascending
    [localeCompare] order: no tag compares greater than a later one. *)
Theorem sidebarTags_ascending (s : UIState) :
  StronglySorted (fun a b => localeCompare a b <= 0) (sidebarTags localeCompare s).
Proof.
  unfold sidebarTags. apply sort_sorted; [|exact lc_trans].
  intros a b H. pose proof (lc_sgn a b). lia.
Qed.

End TagOrder.

Lemma sidebarTags_ascending_witness :
  sidebarTags codeUnitCompare (state (loaded [groceries; standup; imported]))
  = [[]; js "home"; js "todo"; js "work"] /\
  StronglySorted (fun a b => codeUnitCompare a b <= 0)
    (sidebarTags codeUnitCompare (state (loaded [groceries; standup; imported]))).
Proof.
  split; [reflexivity|].
  exact (sidebarTags_ascending codeUnitCompare codeUnitCompare_sgn
           codeUnitCompare_trans (state (loaded [groceries; standup; imported]))).
Defined.

Lemma filteredNotes_cases (s : UIState) (t : jsstring) :
  activeTag s = Some t ->
  (t = [] /\ filteredNotes s = notes s) \/
  (t <> [] /\
   filteredNotes s = filter (fun n => includes (tags_or_empty n) t) (notes s) /\
   forall n, In n (filteredNotes s) <-> In n (notes s) /\ In t (tags_or_empty n)).
Proof.
  unfold filteredNotes. intros ->. destruct t as [|c t]; [left; auto|].
  right. simpl. split; [discriminate|]. split; [reflexivity|].
  intros n. rewrite filter_In. now rewrite includes_In.
Qed.

(** X3: clicking any tag the sidebar offers gives a visible list that is not
    empty; for a non-empty tag every visible note carries it. *)
Theorem offered_tag_shows_notes
        (localeCompare : jsstring -> jsstring -> Z) (Host : Type)
        (w : World) (h : Host) (t : jsstring) :
  In t (sidebarTags localeCompare (state w)) ->
  let s' := state (after (onTagClick (Some t)) w h) in
  notes s' = notes (state w) /\
  filteredNotes s' <> [] /\
  (t <> [] -> Forall (fun n => In t (tags_or_empty n)) (filteredNotes s')).
Proof.
  intros Hin s'.
  apply (proj1 (collected_tags localeCompare (state w))) in Hin.
  destruct Hin as [n [Hn Ht]].
  assert (E : s' = set_activeTag (Some t) (state w)) by reflexivity.
  rewrite E. split; [reflexivity|].
  destruct (filteredNotes_cases (set_activeTag (Some t) (state w)) t
              eq_refl) as [[-> Hall]|[Hne [Hf Hiff]]].
  - split; [|intros Hc; now destruct Hc].
    rewrite Hall. simpl. intros Hnil. rewrite Hnil in Hn. destruct Hn.
  - split.
    + intros Hnil. assert (Hv : In n (filteredNotes (set_activeTag (Some t) (state w)))).
      { apply Hiff. split; assumption. }
      rewrite Hnil in Hv. destruct Hv.
    + intros _. apply Forall_forall. intros m Hm. now apply Hiff in Hm.
Qed.

Lemma offered_tag_shows_notes_witness :
  In (js "work") (sidebarTags codeUnitCompare (state (loaded [groceries; standup]))) /\
  filteredNotes (state (after (onTagClick (Some (js "work")))
                              (loaded [groceries; standup])
                              (service [groceries; standup] 3)))
  <> [].
Proof.
  assert (Hin : In (js "work")
                   (sidebarTags codeUnitCompare (state (loaded [groceries; standup])))).
  { right. right. left. reflexivity. }
  split; [exact Hin|].
  exact (proj1 (proj2 (offered_tag_shows_notes codeUnitCompare Backend
                         (loaded [groceries; standup])
                         (service [groceries; standup] 3) (js "work") Hin))).
Defined.

(** ** Tags through the editor *)

Lemma split_without_sep (sep : N) (a : jsstring) :
  ~ In sep a -> split sep a = [a].
Proof.
  induction a as [|c a IH]; intros H; [reflexivity|]. simpl.
  destruct (N.eqb_spec c sep) as [->|Hc]; [destruct H; now left|].
  rewrite IH; [reflexivity|]. intros Hin. apply H. now right.
Qed.

Lemma split_app_sep (sep : N) (a r : jsstring) :
  ~ In sep a -> split sep (a ++ sep :: r) = a :: split sep r.
Proof.
  induction a as [|c a IH]; intros H; simpl.
  - now rewrite N.eqb_refl.
  - destruct (N.eqb_spec c sep) as [->|Hc]; [destruct H; now left|].
    rewrite IH; [reflexivity|]. intros Hin. apply H. now right.
Qed.

Lemma split_space (s : jsstring) :
  split comma (32%N :: s) =
  match split comma s with
  | p :: ps => (32%N :: p) :: ps
  | [] => [[32%N]]
  end.
Proof. reflexivity. Qed.

(** The pieces of a joined tag list: the first tag, then every other tag
    behind the space of the separator. *)
Lemma split_join_tags (a : jsstring) (r : list jsstring) :
  Forall (fun t => ~ In comma t) (a :: r) ->
  split comma (join (js ", ") (a :: r)) = a :: map (cons 32%N) r.
Proof.
  revert a. induction r as [|b r IH]; intros a H.
  - simpl. apply split_without_sep. now inversion H.
  - inversion H as [|x l Ha Hr]; subst.
    change (join (js ", ") (a :: b :: r))
      with (a ++ comma :: 32%N :: join (js ", ") (b :: r)).
    rewrite split_app_sep by assumption.
    simpl map. f_equal.
    assert (E : split comma (32%N :: join (js ", ") (b :: r))
                = (32%N :: b) :: map (cons 32%N) r).
    { rewrite split_space, (IH b Hr). reflexivity. }
    exact E.
Qed.

Lemma clean_trim_padded (t : jsstring) :
  clean t -> trim (32%N :: t) = t /\ truthy t = true.
Proof.
  intros [Hne [Ht _]]. split; [exact Ht | now destruct t].
Qed.

Lemma filter_trim_padded (r : list jsstring) :
  Forall clean r -> filter truthy (map trim (map (cons 32%N) r)) = r.
Proof.
  induction 1 as [|b r Hb Hr IH]; [reflexivity|].
  destruct (clean_trim_padded b Hb) as [Eb Et].
  change (map trim (map (cons 32%N) (b :: r)))
    with (trim (32%N :: b) :: map trim (map (cons 32%N) r)).
  rewrite Eb. cbn [filter]. now rewrite Et, IH.
Qed.

Lemma clean_tags_survive (ts : list jsstring) :
  Forall clean ts -> parseTags (join (js ", ") ts) = ts.
Proof.
  intros H. destruct ts as [|a r]; [reflexivity|].
  unfold parseTags. rewrite split_join_tags.
  - inversion H as [|x l Ha Hr]; subst.
    destruct Ha as [Hne [Hta _]].
    assert (Ea : truthy a = true) by now destruct a.
    change (map trim (a :: map (cons 32%N) r))
      with (trim a :: map trim (map (cons 32%N) r)).
    rewrite Hta. cbn [filter]. now rewrite Ea, filter_trim_padded.
  - eapply Forall_impl; [|exact H]. intros t [_ [_ Hc]]. exact Hc.
Qed.

(** X4: a list of clean tags survives the editor: parsing the tag string
    that [join] makes of it gives the list back. *)
Theorem parseTags_join (ts : list jsstring) :
  Forall clean ts -> parseTags (join (js ", ") ts) = ts.
Proof. exact (clean_tags_survive ts). Qed.

Lemma parseTags_join_witness :
  Forall clean [js "home"; js "to do"] /\
  parseTags (join (js ", ") [js "home"; js "to do"]) = [js "home"; js "to do"].
Proof.
  assert (H : Forall clean [js "home"; js "to do"]).
  { repeat constructor; try discriminate;
      intros Hin; simpl in Hin; repeat destruct Hin as [Hin|Hin]; try discriminate Hin;
        exact Hin. }
  split; [exact H | exact (parseTags_join _ H)].
Defined.

(** X5: saving normalises the tag string once and for all: the parsed tags
    are clean, so joining and parsing them again changes nothing. *)
Theorem parseTags_normalises (s : jsstring) :
  Forall clean (parseTags s) /\
  parseTags (join (js ", ") (parseTags s)) = parseTags s.
Proof.
  assert (H : Forall clean (parseTags s)) by apply parseTags_clean.
  split; [exact H | now apply clean_tags_survive].
Qed.

(** ** Every outcome of a handler *)

Section Outcomes.

Variable localeCompare : jsstring -> jsstring -> Z.
Variable Host : Type.
Variable handle : forall r : Request, Host -> Reply r * Host.

Lemma refresh_outcomes (w : World) (h : Host) :
  refresh_results localeCompare w (after (refresh localeCompare handle) w h).
Proof.
  destruct (handle (ListNotes (query (state w))) h) as [[found|e] h'] eqn:Hl.
  - left. exists found. now apply after_refresh_fulfilled with h'.
  - right. exists (message_or e (js "Unknown error")).
    now apply after_refresh_rejected with h'.
Qed.

Lemma refresh_events (w : World) (h : Host) :
  events (refresh localeCompare handle) w h
  = [mkEvent (ListNotes (query (state w))) (pending w)].
Proof.
  unfold events, run.
  now destruct (refresh_completes localeCompare _ handle (mkRun w h []))
    as [w' [h' ->]].
Qed.

Lemma refresh_trace (c : Run Host) :
  trace (snd (refresh localeCompare handle c))
  = trace c ++ [mkEvent (ListNotes (query (state (world c)))) (pending (world c))].
Proof.
  now destruct (refresh_completes localeCompare _ handle c) as [w' [h' ->]].
Qed.

Lemma onCreate_outcomes (w : World) (h : Host) :
  (exists m,
      after (onCreate localeCompare handle) w h
      = set_saving false (on_state (failed m) w) /\
      events (onCreate localeCompare handle) w h
      = [mkEvent (CreateNote blank) (set_saving true w)]) \/
  (exists created w',
      refresh_results localeCompare (set_saving true w) w' /\
      after (onCreate localeCompare handle) w h
      = set_saving false (on_state (editing (id created)) w') /\
      events (onCreate localeCompare handle) w h
      = [mkEvent (CreateNote blank) (set_saving true w);
         mkEvent (ListNotes (query (state w))) (pending (set_saving true w))]).
Proof.
  unfold after, events, run.
  destruct (handle (CreateNote blank) h) as [[n|e] h1] eqn:Hc.
  - right. exists n.
    exists (after (refresh localeCompare handle) (set_saving true w) h1).
    split; [apply refresh_outcomes|].
    rewrite (onCreate_fulfilled _ _ _ (mkRun w h []) n h1 Hc).
    cbv zeta. cbn [snd world trace]. rewrite refresh_world, refresh_trace.
    split; reflexivity.
  - left. exists (message_or e (js "Failed to create note")).
    rewrite (onCreate_rejected _ _ _ (mkRun w h []) e h1 Hc). split; reflexivity.
Qed.

Lemma onSave_outcomes (w : World) (h : Host) :
  (selectedId (state w) = None /\
   after (onSave localeCompare handle) w h = w /\
   events (onSave localeCompare handle) w h = []) \/
  (exists i, selectedId (state w) = Some i /\
   ((exists m,
        after (onSave localeCompare handle) w h
        = set_saving false (on_state (failed m) w) /\
        events (onSave localeCompare handle) w h
        = [mkEvent (UpdateNote i (draft (state w))) (set_saving true w)]) \/
    (exists w',
        refresh_results localeCompare (set_saving true w) w' /\
        after (onSave localeCompare handle) w h = set_saving false w' /\
        events (onSave localeCompare handle) w h
        = [mkEvent (UpdateNote i (draft (state w))) (set_saving true w);
           mkEvent (ListNotes (query (state w))) (pending (set_saving true w))]))).
Proof.
  unfold after, events, run.
  destruct (selectedId (state w)) as [i|] eqn:Hs.
  - right. exists i. split; [reflexivity|].
    destruct (handle (UpdateNote i (draft (state w))) h) as [[n|e] h1] eqn:Hu.
    + right. exists (after (refresh localeCompare handle) (set_saving true w) h1).
      split; [apply refresh_outcomes|].
      rewrite (onSave_fulfilled _ _ _ (mkRun w h []) i n h1 Hs Hu).
      cbv zeta. cbn [snd world trace]. rewrite refresh_world, refresh_trace.
      split; reflexivity.
    + left. exists (message_or e (js "Failed to save note")).
      rewrite (onSave_rejected _ _ _ (mkRun w h []) i e h1 Hs Hu).
      split; reflexivity.
  - left. rewrite (onSave_unselected _ _ _ (mkRun w h []) Hs). auto.
Qed.

Lemma onDelete_outcomes (w : World) (h : Host) :
  (selectedId (state w) = None /\
   after (onDelete localeCompare handle) w h = w /\
   events (onDelete localeCompare handle) w h = []) \/
  (exists i, selectedId (state w) = Some i /\
   ((after (onDelete localeCompare handle) w h = w /\
     events (onDelete localeCompare handle) w h = [mkEvent prompt w]) \/
    (exists m,
        after (onDelete localeCompare handle) w h
        = set_deleting false (on_state (failed m) w) /\
        events (onDelete localeCompare handle) w h
        = [mkEvent prompt w; mkEvent (DeleteNote i) (set_deleting true w)]) \/
    (exists w',
        refresh_results localeCompare (set_deleting true (on_state cleared w)) w' /\
        after (onDelete localeCompare handle) w h = set_deleting false w' /\
        events (onDelete localeCompare handle) w h
        = [mkEvent prompt w; mkEvent (DeleteNote i) (set_deleting true w);
           mkEvent (ListNotes (query (state w)))
                   (pending (set_deleting true (on_state cleared w)))]))).
Proof.
  unfold after, events, run.
  destruct (selectedId (state w)) as [i|] eqn:Hs.
  - right. exists i. split; [reflexivity|].
    destruct (handle prompt h) as [[|] h1] eqn:Hp.
    + destruct (handle (DeleteNote i) h1) as [[[]|e] h2] eqn:Hd.
      * right. right.
        exists (after (refresh localeCompare handle)
                      (set_deleting true (on_state cleared w)) h2).
        split; [apply refresh_outcomes|].
        rewrite (onDelete_fulfilled _ _ _ (mkRun w h []) i h1 h2 Hs Hp Hd).
        cbv zeta. cbn [snd world trace]. rewrite refresh_world, refresh_trace.
        split; reflexivity.
      * right. left. exists (message_or e (js "Failed to delete note")).
        rewrite (onDelete_rejected _ _ _ (mkRun w h []) i e h1 h2 Hs Hp Hd).
        split; reflexivity.
    + left. rewrite (onDelete_declined _ _ _ (mkRun w h []) i h1 Hs Hp).
      split; reflexivity.
  - left. rewrite (onDelete_unselected _ _ _ (mkRun w h []) Hs). auto.
Qed.

End Outcomes.

(** ** Saving what was selected *)

(** X6: saving right after selecting a note whose tags are clean resubmits
    that note as it is: the first request is the update of the selected id
    with the note's own title, content and tags. *)
Theorem select_then_save_resubmits
        (localeCompare : jsstring -> jsstring -> Z) (Host : Type)
        (handle : forall r : Request, Host -> Reply r * Host)
        (w : World) (h h' : Host) (i : Z) (n : Note) :
  find (has_id i) (notes (state w)) = Some n ->
  Forall clean (tags_or_empty n) ->
  exists rest,
    map asked (events (onSave localeCompare handle) (after (selectNote i) w h) h')
    = UpdateNote i (mkData (title n) (content n) (tags_or_empty n)) :: rest.
Proof.
  intros Hf Hc.
  assert (Ew : after (selectNote i) w h = on_state (editing i) w).
  { unfold after, run. now rewrite selectNote_run. }
  rewrite Ew.
  assert (Ed : draft (state (on_state (editing i) w))
               = mkData (title n) (content n) (tags_or_empty n)).
  { unfold draft, on_state, editing. simpl. rewrite Hf. simpl.
    now rewrite clean_tags_survive. }
  assert (Es : selectedId (state (on_state (editing i) w)) = Some i)
    by apply editing_frame.
  destruct (onSave_outcomes localeCompare _ handle (on_state (editing i) w) h')
    as [[Hnone _]|[j [Hj [[m [_ He]]|[w' [_ [_ He]]]]]]].
  - congruence.
  - rewrite He. cbn [map asked]. rewrite Ed. replace j with i by congruence. eauto.
  - rewrite He. cbn [map asked]. rewrite Ed. replace j with i by congruence. eauto.
Qed.

Lemma select_then_save_resubmits_witness :
  find (has_id 1) (notes (state (loaded [groceries; standup]))) = Some groceries /\
  Forall clean (tags_or_empty groceries) /\
  hd_error (map asked
     (events (onSave codeUnitCompare backend)
             (after (selectNote 1) (loaded [groceries; standup])
                    (service [groceries; standup] 3))
             (service [groceries; standup] 3)))
  = Some (UpdateNote 1 (mkData (js "Groceries") (js "milk, eggs")
                               [js "home"; js "todo"])).
Proof.
  assert (Hc : Forall clean (tags_or_empty groceries)).
  { repeat constructor; try discriminate;
      intros Hin; simpl in Hin; repeat destruct Hin as [Hin|Hin];
        try discriminate Hin; exact Hin. }
  split; [reflexivity|]. split; [exact Hc|].
  destruct (select_then_save_resubmits codeUnitCompare Backend backend
              (loaded [groceries; standup]) (service [groceries; standup] 3)
              (service [groceries; standup] 3) 1 groceries eq_refl Hc)
    as [rest ->].
  reflexivity.
Defined.

(** ** Invariants of the store *)

Lemma settled_valid (l : list Note) (s : UIState) : selection_valid (settled l s).
Proof.
  unfold selection_valid. rewrite settled_selectedId, settled_notes.
  destruct (reselect (selectedId s) l) as [i|] eqn:R; [|exact I].
  destruct (reselect_found _ _ _ R) as [n Hn].
  destruct (find_some _ _ Hn) as [Hin Hid]. exists n. split; [assumption|].
  now apply Z.eqb_eq.
Qed.

Lemma refresh_results_valid (localeCompare : jsstring -> jsstring -> Z)
      (w w' : World) :
  refresh_results localeCompare w w' ->
  selection_valid (state w) -> selection_valid (state w').
Proof.
  intros [[found ->]|[m ->]] Hv; [apply settled_valid | exact Hv].
Qed.

(** X7: a selection that designates a note of the snapshot (or nothing)
    still does after [refresh], [onSave] and [onDelete], whatever the host
    replies, and after [selectNote] of an id the snapshot contains. *)
Theorem selection_stays_valid
        (localeCompare : jsstring -> jsstring -> Z) (Host : Type)
        (handle : forall r : Request, Host -> Reply r * Host)
        (w : World) (h : Host) :
  selection_valid (state w) ->
  selection_valid (state (after (refresh localeCompare handle) w h)) /\
  selection_valid (state (after (onSave localeCompare handle) w h)) /\
  selection_valid (state (after (onDelete localeCompare handle) w h)) /\
  (forall i, (exists n, In n (notes (state w)) /\ id n = i) ->
             selection_valid (state (after (selectNote i) w h))).
Proof.
  intros Hv. split; [|split; [|split]].
  - exact (refresh_results_valid _ _ _ (refresh_outcomes _ _ handle w h) Hv).
  - destruct (onSave_outcomes localeCompare _ handle w h)
      as [[_ [-> _]]|[i [Hi [[m [-> _]]|[w' [Hr [-> _]]]]]]]; try exact Hv.
    exact (refresh_results_valid _ _ _ Hr Hv).
  - destruct (onDelete_outcomes localeCompare _ handle w h)
      as [[_ [-> _]]|[i [Hi [[-> _]|[[m [-> _]]|[w' [Hr [-> _]]]]]]]];
      try exact Hv.
    exact (refresh_results_valid _ _ _ Hr I).
  - intros i Hin. unfold after, run. rewrite selectNote_run. simpl.
    unfold selection_valid.
    destruct (editing_frame i (state w)) as [-> [-> _]]. exact Hin.
Qed.

Lemma selection_stays_valid_witness :
  selection_valid (state (loaded [groceries; standup])) /\
  selection_valid
    (state (after (onDelete codeUnitCompare backend) (loaded [groceries; standup])
                  (service [groceries; standup] 3))).
Proof.
  assert (Hv : selection_valid (state (loaded [groceries; standup]))).
  { exists standup. split; [left|]; reflexivity. }
  split; [exact Hv|].
  exact (proj1 (proj2 (proj2 (selection_stays_valid codeUnitCompare Backend backend
                                (loaded [groceries; standup])
                                (service [groceries; standup] 3) Hv)))).
Defined.

(** X8: busy flags never stick.  Whatever the host replies, [loading] is
    false when [refresh] completes, [saving] is false when [onCreate]
    completes, and [onSave] and [onDelete] either did nothing at all or leave
    [saving], respectively [deleting], false. *)
Theorem busy_flags_cleared
        (localeCompare : jsstring -> jsstring -> Z) (Host : Type)
        (handle : forall r : Request, Host -> Reply r * Host)
        (w : World) (h : Host) :
  loading (state (after (refresh localeCompare handle) w h)) = false /\
  saving (after (onCreate localeCompare handle) w h) = false /\
  (saving (after (onSave localeCompare handle) w h) = false \/
   after (onSave localeCompare handle) w h = w) /\
  (deleting (after (onDelete localeCompare handle) w h) = false \/
   after (onDelete localeCompare handle) w h = w).
Proof.
  split; [|split; [|split]].
  - destruct (refresh_outcomes localeCompare _ handle w h) as [[found ->]|[m ->]];
      [apply settled_loading | reflexivity].
  - destruct (onCreate_outcomes localeCompare _ handle w h)
      as [[m [-> _]]|[c [w' [_ [-> _]]]]]; reflexivity.
  - destruct (onSave_outcomes localeCompare _ handle w h)
      as [[_ [-> _]]|[i [Hi [[m [-> _]]|[w' [Hr [-> _]]]]]]]; auto.
  - destruct (onDelete_outcomes localeCompare _ handle w h)
      as [[_ [-> _]]|[i [Hi [[-> _]|[[m [-> _]]|[w' [Hr [-> _]]]]]]]]; auto.
Qed.

(** ** What the display shows while a call is pending *)

(** X9: while the listing of a [refresh] is pending the store says
    [loading], so the "No notes found" placeholder is not shown; while any
    call of [onCreate] or [onSave] is pending the New and Save buttons are
    disabled; while the delete or the listing of [onDelete] is pending the
    Delete button is disabled. *)
Theorem pending_calls_disable_controls
        (localeCompare : jsstring -> jsstring -> Z) (Host : Type)
        (handle : forall r : Request, Host -> Reply r * Host)
        (w : World) (h : Host) (ev : Event) :
  (In ev (events (refresh localeCompare handle) w h) ->
   loading (state (shown ev)) = true /\ showsNoNotes (state (shown ev)) = false) /\
  (In ev (events (onCreate localeCompare handle) w h) ->
   newDisabled (shown ev) = true /\ saveDisabled (shown ev) = true) /\
  (In ev (events (onSave localeCompare handle) w h) ->
   newDisabled (shown ev) = true /\ saveDisabled (shown ev) = true) /\
  (In ev (events (onDelete localeCompare handle) w h) ->
   asked ev <> prompt -> deleteDisabled (shown ev) = true).
Proof.
  split; [|split; [|split]].
  - rewrite refresh_events. intros [<-|[]]. split; reflexivity.
  - destruct (onCreate_outcomes localeCompare _ handle w h)
      as [[m [_ ->]]|[c [w' [_ [_ ->]]]]];
      simpl; intros H; repeat destruct H as [<-|H]; try destruct H;
        split; reflexivity.
  - destruct (onSave_outcomes localeCompare _ handle w h)
      as [[_ [_ ->]]|[i [Hi [[m [_ ->]]|[w' [_ [_ ->]]]]]]];
      simpl; intros H; repeat destruct H as [<-|H]; try destruct H;
        split; reflexivity.
  - destruct (onDelete_outcomes localeCompare _ handle w h)
      as [[_ [_ ->]]|[i [Hi [[_ ->]|[[m [_ ->]]|[w' [_ [_ ->]]]]]]]];
      simpl; intros H Hp; repeat destruct H as [<-|H]; try destruct H;
        try reflexivity; now destruct Hp.
Qed.

Lemma pending_calls_disable_controls_witness :
  let ev := mkEvent (CreateNote blank) (set_saving true (loaded [groceries])) in
  In ev (events (onCreate codeUnitCompare backend) (loaded [groceries])
                (service [groceries] 2)) /\
  newDisabled (shown ev) = true /\ saveDisabled (shown ev) = true.
Proof.
  intros ev.
  assert (Hin : In ev (events (onCreate codeUnitCompare backend) (loaded [groceries])
                              (service [groceries] 2))) by (left; reflexivity).
  split; [exact Hin|].
  exact (proj1 (proj2 (pending_calls_disable_controls codeUnitCompare Backend backend
                         (loaded [groceries]) (service [groceries] 2) ev)) Hin).
Defined.

(** ** The requests a handler can make *)




(** ** A successful save, and a create the listing does not show *)

Lemma find_existsb (i : Z) (l : list Note) (n : Note) :
  find (has_id i) l = Some n -> existsb (has_id i) l = true.
Proof.
  intros H. destruct (find_some _ _ H) as [Hin Hn].
  apply existsb_exists. eauto.
Qed.

(** X11: when the update and the listing that follows are fulfilled and the
    listing still holds a note of the selected id, [onSave] keeps the
    selection and replaces the editor's draft by the listed note's fields;
    no error and no busy flag is left. *)
Theorem onSave_reloads_listed_note
        (localeCompare : jsstring -> jsstring -> Z) (Host : Type)
        (handle : forall r : Request, Host -> Reply r * Host)
        (w : World) (h h1 h2 : Host) (i : Z) (saved : Note) (found : list Note) :
  selectedId (state w) = Some i ->
  handle (UpdateNote i (draft (state w))) h = (Fulfilled saved, h1) ->
  handle (ListNotes (query (state w))) h1 = (Fulfilled found, h2) ->
  (exists n, In n found /\ id n = i) ->
  let w' := after (onSave localeCompare handle) w h in
  selectedId (state w') = Some i /\
  (exists n, In n found /\ id n = i /\ selected (state w') = Some n /\
             editTitle (state w') = title n /\ editContent (state w') = content n /\
             editTags (state w') = join (js ", ") (tags_or_empty n)) /\
  error (state w') = None /\ loading (state w') = false /\ saving w' = false.
Proof.
  intros Hs Hu Hl [n0 [Hin0 Hid0]] w'.
  set (snapshot := sort (byRecency localeCompare) found).
  assert (E : w' = set_saving false (on_state (settled snapshot) (set_saving true w))).
  { unfold w', after, run.
    rewrite (onSave_fulfilled _ _ _ (mkRun w h []) i saved h1 Hs Hu).
    erewrite refresh_fulfilled by exact Hl. reflexivity. }
  assert (Hsel : selectedId (state w') = Some i).
  { rewrite E. simpl. rewrite settled_selectedId, Hs. unfold reselect.
    assert (Hex : existsb (has_id i) snapshot = true).
    { apply existsb_has_id. exists n0. split; [|assumption].
      apply (Permutation_in _ (sort_perm _ _)). assumption. }
    now rewrite Hex. }
  split; [exact Hsel|]. split; [|split; [|split]].
  - pose proof (settled_editor snapshot (state w)) as Hed.
    rewrite E in Hsel. simpl in Hsel. rewrite Hsel in Hed.
    destruct Hed as [n [Hf [Ht [Hc Hg]]]]. rewrite settled_notes in Hf.
    destruct (find_some _ _ Hf) as [Hin Hid]. apply Z.eqb_eq in Hid.
    exists n. split.
    { apply (Permutation_in _ (Permutation_sym (sort_perm (byRecency localeCompare) found))).
      exact Hin. }
    split; [exact Hid|]. rewrite E. simpl. unfold selected.
    rewrite Hsel, settled_notes. auto.
  - rewrite E. simpl. apply settled_error.
  - rewrite E. simpl. apply settled_loading.
  - rewrite E. reflexivity.
Qed.

Lemma onSave_reloads_listed_note_witness :
  let typed := after (onTagsInput (js " home ,, errands,"))
                     (loaded [groceries]) (service [groceries] 2) in
  selectedId (state typed) = Some 1 /\
  editTags (state (after (onSave codeUnitCompare backend) typed
                         (service [groceries] 2)))
  = js "home, errands".
Proof.
  intros typed. split; [reflexivity|].
  destruct (onSave_reloads_listed_note codeUnitCompare Backend backend typed
              (service [groceries] 2) _ _ 1 _ _ eq_refl eq_refl eq_refl)
    as [_ [[n [Hin [_ [_ [_ [_ Hg]]]]]] _]].
  - eexists. split; [left; reflexivity | reflexivity].
  - rewrite Hg. destruct Hin as [<-|[]]. reflexivity.
Defined.

(** X12: when the create is fulfilled but the listing of the refresh does
    not contain the created id (the search text filters it out), [onCreate]
    leaves a selection that designates no snapshot note, with the editor as
    the refresh left it; a save that follows sends that editor text as the
    update of the created note. *)
Theorem onCreate_unlisted_note_dangles
        (localeCompare : jsstring -> jsstring -> Z) (Host : Type)
        (handle : forall r : Request, Host -> Reply r * Host)
        (w : World) (h h1 h2 : Host) (created : Note) (found : list Note) :
  handle (CreateNote (mkData (js "Untitled") [] [])) h = (Fulfilled created, h1) ->
  handle (ListNotes (query (state w))) h1 = (Fulfilled found, h2) ->
  (forall n, In n found -> id n <> id created) ->
  let w' := after (onCreate localeCompare handle) w h in
  let refreshed := state (after (refresh localeCompare handle) w h1) in
  state w' = set_selectedId (Some (id created)) refreshed /\
  selected (state w') = None /\
  ~ selection_valid (state w') /\
  (forall h3, exists rest,
        map asked (events (onSave localeCompare handle) w' h3)
        = UpdateNote (id created) (draft refreshed) :: rest).
Proof.
  intros Hc Hl Habsent w' refreshed.
  set (snapshot := sort (byRecency localeCompare) found).
  assert (Hr : refreshed = settled snapshot (state w)).
  { unfold refreshed. now rewrite (after_refresh_fulfilled _ _ _ _ _ _ _ Hl). }
  assert (Hnone : forall n, In n snapshot -> id n <> id created).
  { intros n Hin. apply Habsent.
    apply (Permutation_in _ (Permutation_sym (sort_perm (byRecency localeCompare) found))).
    exact Hin. }
  assert (Hf : find (has_id (id created)) snapshot = None)
    by now apply find_has_id_none.
  assert (E : w' = set_saving false
                     (on_state (editing (id created))
                        (on_state (settled snapshot) (set_saving true w)))).
  { unfold w', after, run.
    rewrite (onCreate_fulfilled _ _ _ (mkRun w h []) created h1 Hc).
    erewrite refresh_fulfilled by exact Hl. reflexivity. }
  assert (Es : state w' = set_selectedId (Some (id created)) refreshed).
  { rewrite E, Hr. simpl. unfold editing. now rewrite settled_notes, Hf. }
  split; [exact Es|]. split; [|split].
  - rewrite Es, Hr. unfold selected. simpl. now rewrite settled_notes.
  - rewrite Es, Hr. unfold selection_valid. simpl. rewrite settled_notes.
    intros [n [Hin Hid]]. exact (Hnone n Hin Hid).
  - intros h3.
    assert (Hsel : selectedId (state w') = Some (id created)) by now rewrite Es.
    assert (Hd : draft (state w') = draft refreshed) by now rewrite Es.
    destruct (onSave_outcomes localeCompare _ handle w' h3)
      as [[Hn _]|[j [Hj [[m [_ ->]]|[w'' [_ [_ ->]]]]]]]; [congruence| |];
      replace j with (id created) by congruence; cbn [map asked];
        rewrite Hd; eauto.
Qed.

Lemma onCreate_unlisted_note_dangles_witness :
  let b := service [groceries; standup] 3 in
  let typed := after (onSearchInput (js "milk")) initialWorld b in
  let w := after (onSearch codeUnitCompare backend) typed b in
  let w' := after (onCreate codeUnitCompare backend) w b in
  map id (notes (state w')) = [1] /\ selectedId (state w') = Some 3 /\
  editTitle (state w') = js "Groceries" /\
  (exists rest,
      map asked (events (onSave codeUnitCompare backend) w' b)
      = UpdateNote 3 (mkData (js "Groceries") (js "milk, eggs")
                             [js "home"; js "todo"]) :: rest).
Proof.
  intros b typed w w'.
  destruct (onCreate_unlisted_note_dangles codeUnitCompare Backend backend
              w b _ _ _ [groceries] eq_refl eq_refl) as [Es [_ [_ Hsave]]].
  - intros n [<-|[]]. discriminate.
  - fold w' in Es, Hsave. rewrite Es.
    split; [reflexivity|]. split; [reflexivity|]. split; [reflexivity|].
    destruct (Hsave b) as [rest Hrest]. exists rest. rewrite Hrest. reflexivity.
Defined.

(** ** Refreshing again, and listings already in order *)

Lemma settled_idempotent (l : list Note) (s : UIState) :
  settled l (settled l s) = settled l s.
Proof.
  destruct (reselect (selectedId s) l) as [i|] eqn:R.
  - destruct (reselect_found _ _ _ R) as [n Hn].
    assert (E : settled l s =
                mkState l false None (Some i) (title n) (content n)
                        (join (js ", ") (tags_or_empty n)) (search s) (activeTag s)).
    { unfold settled. now rewrite R, Hn. }
    rewrite E. unfold settled. simpl.
    now rewrite (find_existsb _ _ _ Hn), Hn.
  - assert (E : settled l s =
                mkState l false None None [] [] [] (search s) (activeTag s)).
    { unfold settled. now rewrite R. }
    assert (Hhd : option_map id (hd_error l) = None).
    { unfold reselect in R. destruct (selectedId s) as [j|]; [|exact R].
      now destruct (existsb (has_id j) l). }
    rewrite E. unfold settled. simpl. now rewrite Hhd.
Qed.

(** X13: refreshing twice is refreshing once: when two listings in a row
    are fulfilled with the same notes, the second refresh leaves the store
    exactly as the first did. *)
Theorem refresh_twice
        (localeCompare : jsstring -> jsstring -> Z) (Host : Type)
        (handle : forall r : Request, Host -> Reply r * Host)
        (w : World) (h h1 h2 : Host) (found : list Note) :
  handle (ListNotes (query (state w))) h = (Fulfilled found, h1) ->
  handle (ListNotes (query (state w))) h1 = (Fulfilled found, h2) ->
  after (refresh localeCompare handle)
        (after (refresh localeCompare handle) w h) h1
  = after (refresh localeCompare handle) w h.
Proof.
  intros H1 H2.
  rewrite (after_refresh_fulfilled _ _ _ _ _ _ _ H1).
  set (l := sort (byRecency localeCompare) found).
  assert (Hq : query (state (on_state (settled l) w)) = query (state w)).
  { unfold query. simpl. unfold settled.
    destruct (reselect _ _); [|reflexivity]. now destruct (find _ _). }
  rewrite <- Hq in H2.
  rewrite (after_refresh_fulfilled _ _ _ _ _ _ _ H2).
  fold l. unfold on_state. simpl. now rewrite settled_idempotent.
Qed.

Lemma refresh_twice_witness :
  after (refresh codeUnitCompare backend)
        (after (refresh codeUnitCompare backend) (loaded [scrap])
               (service [groceries; standup] 3))
        (service [groceries; standup] 3)
  = after (refresh codeUnitCompare backend) (loaded [scrap])
          (service [groceries; standup] 3).
Proof.
  exact (refresh_twice codeUnitCompare Backend backend (loaded [scrap])
           (service [groceries; standup] 3) _ _ _ eq_refl eq_refl).
Defined.

Lemma sort_ordered {A : Type} (cmp : A -> A -> Z) (l : list A) :
  StronglySorted (fun a b => cmp a b <= 0) l -> sort cmp l = l.
Proof.
  induction 1 as [|x l Hl IH Hx]; [reflexivity|].
  simpl. rewrite IH. destruct l as [|y r]; [reflexivity|]. simpl.
  inversion Hx as [|? ? Hxy _]; subst.
  apply Z.leb_le in Hxy. now rewrite Hxy.
Qed.

(** X14: a listing that already runs from newest to oldest becomes the
    snapshot as it is, with any [localeCompare]. *)
Theorem refresh_keeps_ordered_listing
        (localeCompare : jsstring -> jsstring -> Z) (Host : Type)
        (handle : forall r : Request, Host -> Reply r * Host)
        (w : World) (h h' : Host) (found : list Note) :
  handle (ListNotes (query (state w))) h = (Fulfilled found, h') ->
  StronglySorted
    (fun a b => localeCompare (effective b) (effective a) <= 0) found ->
  notes (state (after (refresh localeCompare handle) w h)) = found.
Proof.
  intros Hl Hs. rewrite (after_refresh_fulfilled _ _ _ _ _ _ _ Hl). simpl.
  rewrite settled_notes. now apply (sort_ordered (byRecency localeCompare)).
Qed.

Lemma refresh_keeps_ordered_listing_witness :
  StronglySorted
    (fun a b => codeUnitCompare (effective b) (effective a) <= 0)
    [standup; groceries; scrap] /\
  notes (state (after (refresh codeUnitCompare backend) initialWorld
                      (service [standup; groceries; scrap] 4)))
  = [standup; groceries; scrap].
Proof.
  assert (Hs : StronglySorted
                 (fun a b => codeUnitCompare (effective b) (effective a) <= 0)
                 [standup; groceries; scrap]).
  { repeat constructor; discriminate. }
  split; [exact Hs|].
  exact (refresh_keeps_ordered_listing codeUnitCompare Backend backend initialWorld
           (service [standup; groceries; scrap] 4) _ _ eq_refl Hs).
Defined.

Lemma StronglySorted_filter {A : Type} (R : A -> A -> Prop) (f : A -> bool)
      (l : list A) :
  StronglySorted R l -> StronglySorted R (filter f l).
Proof.
  induction 1 as [|x l Hl IH Hx]; simpl; [constructor|].
  destruct (f x); [|assumption]. constructor; [assumption|].
  apply Forall_forall. intros y Hy. apply filter_In in Hy.
  rewrite Forall_forall in Hx. now apply Hx.
Qed.

Section VisibleOrder.

Variable localeCompare : jsstring -> jsstring -> Z.
Hypothesis lc_sgn :
  forall a b, Z.sgn (localeCompare a b) = - Z.sgn (localeCompare b a).
Hypothesis lc_trans :
  forall a b c, localeCompare a b <= 0 -> localeCompare b c <= 0 ->
                localeCompare a c <= 0.
Variable Host : Type.
Variable handle : forall r : Request, Host -> Reply r * Host.

(** X15: filtering keeps the order of recency: after a successful refresh,
    under a consistent collation, the visible notes run from newest to
    oldest whichever tag is made active. *)
Theorem visible_notes_newest_first
        (w : World) (h h' h'' : Host) (found : list Note) (t : option jsstring) :
  handle (ListNotes (query (state w))) h = (Fulfilled found, h') ->
  StronglySorted
    (fun a b => localeCompare (effective b) (effective a) <= 0)
    (filteredNotes
       (state (after (onTagClick t) (after (refresh localeCompare handle) w h) h''))).
Proof.
  intros Hl. rewrite (after_refresh_fulfilled _ _ _ _ _ _ _ Hl).
  set (l := sort (byRecency localeCompare) found).
  assert (Hs : StronglySorted
                 (fun a b => localeCompare (effective b) (effective a) <= 0) l).
  { apply (sort_sorted (byRecency localeCompare)).
    - intros a b H. unfold byRecency in *.
      pose proof (lc_sgn (effective b) (effective a)). lia.
    - intros a b c H1 H2. unfold byRecency in *. exact (lc_trans _ _ _ H2 H1). }
  unfold after, run, onTagClick, assign, update, filteredNotes. simpl.
  rewrite settled_notes. fold l.
  destruct t as [t|]; [|exact Hs].
  destruct (truthy t); [|exact Hs]. now apply StronglySorted_filter.
Qed.

End VisibleOrder.

Lemma visible_notes_newest_first_witness :
  filteredNotes
    (state (after (onTagClick (Some (js "home")))
                  (after (refresh codeUnitCompare backend) initialWorld
                         (service [scrap; groceries; standup] 4))
                  (service [scrap; groceries; standup] 4)))
  = [groceries] /\
  StronglySorted
    (fun a b => codeUnitCompare (effective b) (effective a) <= 0)
    (filteredNotes
       (state (after (onTagClick (Some (js "home")))
                     (after (refresh codeUnitCompare backend) initialWorld
                            (service [scrap; groceries; standup] 4))
                     (service [scrap; groceries; standup] 4)))).
Proof.
  split; [reflexivity|].
  exact (visible_notes_newest_first codeUnitCompare codeUnitCompare_sgn
           codeUnitCompare_trans Backend backend initialWorld
           (service [scrap; groceries; standup] 4) _
           (service [scrap; groceries; standup] 4) _ (Some (js "home")) eq_refl).
Defined.

(** ** Blank strings: the endpoint and the card heading *)

Lemma trimStart_blank (s : jsstring) :
  forallb isWhiteSpace s = true -> trimStart s = [].
Proof.
  induction s as [|c r IH]; simpl; [reflexivity|].
  destruct (isWhiteSpace c); simpl; [exact IH | discriminate].
Qed.

(** [trim] leaves nothing exactly of the strings made of white space. *)
Lemma trim_blank (s : jsstring) :
  trim s = [] <-> forallb isWhiteSpace s = true.
Proof.
  split.
  - intros E. destruct (trim_spec s) as [a [b [Hs [Ha [Hb _]]]]].
    rewrite E in Hs. simpl in Hs. rewrite Hs, forallb_app, Ha, Hb. reflexivity.
  - intros H. unfold trim. now rewrite (trimStart_blank s H).
Qed.

Lemma nonblank_trim (s : jsstring) :
  (exists x, In x s /\ isWhiteSpace x = false) ->
  (truthy s && (0 <? List.length (trim s))%nat) = true.
Proof.
  intros [x [Hin Hx]].
  assert (Ht : trim s <> []).
  { intros E. apply trim_blank in E. rewrite forallb_forall in E.
    rewrite (E x Hin) in Hx. discriminate. }
  destruct s as [|c r]; [destruct Hin|]. simpl truthy.
  destruct (trim (c :: r)); [contradiction | reflexivity].
Qed.

Lemma blank_trim (s : jsstring) :
  forallb isWhiteSpace s = true ->
  (truthy s && (0 <? List.length (trim s))%nat) = false.
Proof.
  intros H. apply trim_blank in H. rewrite H. apply andb_false_r.
Qed.

(** X16: [getApiBase] returns the configured endpoint verbatim when it holds
    a code unit that is not white space, and [/api] when nothing is
    configured or the configured value is blank; its result is never
    blank. *)
Theorem getApiBase_never_blank (configured : option jsstring) :
  trim (getApiBase configured) <> [] /\
  (forall c, configured = Some c ->
             (exists x, In x c /\ isWhiteSpace x = false) ->
             getApiBase configured = c) /\
  (configured = None \/
   (exists c, configured = Some c /\ forallb isWhiteSpace c = true) ->
   getApiBase configured = js "/api").
Proof.
  split; [|split].
  - unfold getApiBase. destruct configured as [c|]; [|discriminate].
    destruct (truthy c && (0 <? List.length (trim c))%nat) eqn:E; [|discriminate].
    apply andb_prop in E. destruct E as [_ E].
    intros Hnil. rewrite Hnil in E. discriminate.
  - intros c -> H. unfold getApiBase. now rewrite (nonblank_trim c H).
  - intros [->|[c [-> H]]]; [reflexivity|].
    unfold getApiBase. now rewrite (blank_trim c H).
Qed.

Lemma getApiBase_never_blank_witness :
  getApiBase (Some (js " https://notes.example/api ")) = js " https://notes.example/api "
  /\ getApiBase (Some (js "   ")) = js "/api".
Proof.
  split.
  - refine (proj1 (proj2 (getApiBase_never_blank _)) _ eq_refl _).
    exists 104%N. split; [right; left; reflexivity | reflexivity].
  - refine (proj2 (proj2 (getApiBase_never_blank _)) _).
    right. eexists. split; reflexivity.
Defined.

(** X17: a note card is headed by the note's title when the title holds a
    code unit that is not white space, and by ["Untitled"] when the title is
    empty or blank; the heading is never blank. *)
Theorem cardTitle_never_blank (n : Note) :
  trim (cardTitle n) <> [] /\
  ((exists x, In x (title n) /\ isWhiteSpace x = false) ->
   cardTitle n = title n) /\
  (forallb isWhiteSpace (title n) = true -> cardTitle n = js "Untitled").
Proof.
  split; [|split].
  - unfold cardTitle.
    destruct (truthy (title n) && (0 <? List.length (trim (title n)))%nat) eqn:E;
      [|discriminate].
    apply andb_prop in E. destruct E as [_ E].
    intros Hnil. rewrite Hnil in E. discriminate.
  - intros H. unfold cardTitle. now rewrite (nonblank_trim _ H).
  - intros H. unfold cardTitle. now rewrite (blank_trim _ H).
Qed.

Lemma cardTitle_never_blank_witness :
  cardTitle groceries = js "Groceries" /\
  cardTitle (mkNote 7 (js "  ") [] None None None) = js "Untitled".
Proof.
  split.
  - refine (proj1 (proj2 (cardTitle_never_blank groceries)) _).
    exists 71%N. split; [left; reflexivity | reflexivity].
  - exact (proj2 (proj2 (cardTitle_never_blank
                           (mkNote 7 (js "  ") [] None None None))) eq_refl).
Defined.

(** ** What is selected at startup *)

Section Startup.

Variable localeCompare : jsstring -> jsstring -> Z.
Hypothesis lc_sgn :
  forall a b, Z.sgn (localeCompare a b) = - Z.sgn (localeCompare b a).
Hypothesis lc_trans :
  forall a b c, localeCompare a b <= 0 -> localeCompare b c <= 0 ->
                localeCompare a c <= 0.
Variable Host : Type.
Variable handle : forall r : Request, Host -> Reply r * Host.


End Startup.

